(** * FieldRoutes integration server: a shallow embedding of [server.js]

    The server is an Express application: a credential middleware, seven
    route handlers that validate their input, issue one call to the provider
    through an axios client and reshape the answer, and a shared error
    normaliser.  JavaScript values, strings and regular expressions are
    modelled as far as the program uses them; the provider is a function
    from outbound calls to answers, and every handler returns the reply it
    sends together with the trace of clients it created and calls it made. *)

From Stdlib Require Import ZArith NArith List String Ascii Lia Bool.
From stdpp Require Import base option list gmap.
Import ListNotations.

Set Warnings "-register-all".
Set Default Proof Using "Type".

(** ** JavaScript strings

    A JavaScript string is a sequence of UTF-16 code units, numbers below
    65536; the regular expressions of the program have no [u] flag and work
    on code units.  Nothing below depends on the bound. *)

Abbreviation jstr := (list N).

Definition ch (a : ascii) : N := N_of_ascii a.

Definition lit (s : string) : jstr := List.map N_of_ascii (list_ascii_of_string s).

Arguments ch : simpl never.
Arguments lit : simpl never.

(** [\s]: WhiteSpace and LineTerminator of ECMAScript. *)
Definition is_space (c : N) : bool :=
  (existsb (N.eqb c)
     [9; 10; 11; 12; 13; 32; 160; 5760; 8232; 8233; 8239; 8287; 12288; 65279]
   || ((8192 <=? c) && (c <=? 8202)))%N.

(** [\d] without the [u] flag: the ten ASCII digits. *)
Definition is_digit (c : N) : bool := ((48 <=? c) && (c <=? 57))%N.

(** [String.prototype.trim]: strips leading and trailing white space. *)
Fixpoint trim_start (s : jstr) : jstr :=
  match s with
  | c :: s' => if is_space c then trim_start s' else s
  | [] => []
  end.

Definition trim (s : jstr) : jstr := rev (trim_start (rev (trim_start s))).

(** ** Regular expressions, as far as the program writes them *)

Module Regex.

Inductive class_item :=
| Range (lo hi : N)          (* a-z *)
| Single (c : N)             (* @ *)
| EscSpace                   (* \s *)
| EscDigit.                  (* \d *)

(** [[...]] and [[^...]]. *)
Record charset := Charset { negated : bool; items : list class_item }.

Definition item_has (it : class_item) (c : N) : bool :=
  match it with
  | Range lo hi => ((lo <=? c) && (c <=? hi))%N
  | Single d => (c =? d)%N
  | EscSpace => is_space c
  | EscDigit => is_digit c
  end.

Definition in_class (cs : charset) (c : N) : bool :=
  xorb (negated cs) (existsb (fun it => item_has it c) (items cs)).

Inductive regex :=
| Void
| Eps
| Chr (c : N)
| Cls (cs : charset)
| Cat (r1 r2 : regex)
| Alt (r1 r2 : regex)
| Star (r : regex).

(** [r+] *)
Definition Plus (r : regex) : regex := Cat r (Star r).

Fixpoint nullable (r : regex) : bool :=
  match r with
  | Void | Chr _ | Cls _ => false
  | Eps | Star _ => true
  | Cat r1 r2 => nullable r1 && nullable r2
  | Alt r1 r2 => nullable r1 || nullable r2
  end.

Fixpoint deriv (c : N) (r : regex) : regex :=
  match r with
  | Void | Eps => Void
  | Chr d => if (c =? d)%N then Eps else Void
  | Cls cs => if in_class cs c then Eps else Void
  | Cat r1 r2 =>
      if nullable r1 then Alt (Cat (deriv c r1) r2) (deriv c r2)
      else Cat (deriv c r1) r2
  | Alt r1 r2 => Alt (deriv c r1) (deriv c r2)
  | Star r1 => Cat (deriv c r1) (Star r1)
  end.

(** [/^r$/.test(s)]: without the [m] flag the anchors are the two ends of
    the input, so the whole string has to match [r]. *)
Fixpoint test_anchored (r : regex) (s : jstr) : bool :=
  match s with
  | [] => nullable r
  | c :: s' => test_anchored (deriv c r) s'
  end.

(** [s.replace(/cs/g, by)] for a pattern that is one character class:
    every code unit in the class is replaced, the others are kept. *)
Definition replace_all (cs : charset) (by_ : jstr) (s : jstr) : jstr :=
  flat_map (fun c => if in_class cs c then by_ else [c]) s.

(** The language of a regular expression. *)
Inductive Matches : regex -> jstr -> Prop :=
| MEps : Matches Eps []
| MChr c : Matches (Chr c) [c]
| MCls cs c : in_class cs c = true -> Matches (Cls cs) [c]
| MCat r1 r2 s1 s2 :
    Matches r1 s1 -> Matches r2 s2 -> Matches (Cat r1 r2) (s1 ++ s2)
| MAltL r1 r2 s : Matches r1 s -> Matches (Alt r1 r2) s
| MAltR r1 r2 s : Matches r2 s -> Matches (Alt r1 r2) s
| MStar0 r : Matches (Star r) []
| MStarS r s1 s2 :
    Matches r s1 -> Matches (Star r) s2 -> Matches (Star r) (s1 ++ s2).

End Regex.

Import Regex.

(** ** Input validators (server.js, "Utility functions") *)

(** [[^\s@]] *)
Definition not_space_at : charset :=
  Charset true [EscSpace; Single (ch "@")].

(** [/^[^\s@]+@[^\s@]+\.[^\s@]+$/] *)
Definition emailRegex : regex :=
  Cat (Plus (Cls not_space_at))
   (Cat (Chr (ch "@"))
     (Cat (Plus (Cls not_space_at))
       (Cat (Chr (ch "."))
         (Plus (Cls not_space_at))))).

Definition isValidEmail (email : jstr) : bool :=
  test_anchored emailRegex email.

(** [[a-zA-Z0-9-_]]: after the range [0-9] the hyphen is a literal. *)
Definition id_chars : charset :=
  Charset false
    [Range (ch "a") (ch "z"); Range (ch "A") (ch "Z"); Range (ch "0") (ch "9");
     Single (ch "-"); Single (ch "_")].

(** [/^[a-zA-Z0-9-_]+$/.test(id) && id.length > 0 && id.length < 100] *)
Definition isValidCustomerId (id : jstr) : bool :=
  test_anchored (Plus (Cls id_chars)) id
  && (0 <? length id) && (length id <? 100).

(** [/\D/] *)
Definition non_digit : charset := Charset true [EscDigit].

(** [phone.replace(/\D/g, '')] *)
Definition cleanPhone (phone : jstr) : jstr := replace_all non_digit [] phone.

(** ** JavaScript values

    Numbers are doubles in JavaScript.  The program only compares them
    ([Math.min], [Math.max], [===], truthiness), so the finite ones are kept
    as integers; [NaN] and the infinities, which string coercion produces,
    are kept apart. *)

Inductive jsnum := NaN | NegInf | Fin (z : Z) | PosInf.

Inductive jsval :=
| VUndefined
| VNull
| VBool (b : bool)
| VNum (n : jsnum)
| VStr (s : jstr)
| VArr (l : list jsval)
| VObj (m : gmap jstr jsval).

(** ToBoolean *)
Definition truthy (v : jsval) : bool :=
  match v with
  | VUndefined | VNull => false
  | VBool b => b
  | VNum NaN => false
  | VNum (Fin z) => negb (z =? 0)%Z
  | VNum _ => true
  | VStr s => negb (bool_decide (s = []))
  | VArr _ | VObj _ => true
  end.

(** [!v] *)
Definition not_ (v : jsval) : bool := negb (truthy v).

(** [a || b] *)
Definition or_ (a b : jsval) : jsval := if truthy a then a else b.

(** A string-or-undefined ([req.headers.x], [req.params.x], [process.env.X])
    as a value. *)
Definition str_val (o : option jstr) : jsval := from_option VStr VUndefined o.

(** [o.k] on an object given by its own properties. *)
Definition field (m : gmap jstr jsval) (k : string) : jsval :=
  default VUndefined (m !! lit k).

(** [v?.k] for the property names the program reads ([message],
    [customers], [services], [appointments], [total]): none of them is
    defined on strings, numbers, booleans or arrays. *)
Definition opt_member (v : jsval) (k : string) : jsval :=
  match v with
  | VObj m => field m k
  | _ => VUndefined
  end.

(** A property [k: v] of an object literal. *)
Definition prop (k : string) (v : jsval) : string * jsval := (k, v).

(** An object literal. *)
Definition object (props : list (string * jsval)) : jsval :=
  VObj (list_to_map (List.map (fun kv => (lit (fst kv), snd kv)) props)).

(** The first [k: v] of a property list, [undefined] without one. *)
Fixpoint assoc (k : string) (props : list (string * jsval)) : jsval :=
  match props with
  | [] => VUndefined
  | (k', v) :: props' => if String.eqb k k' then v else assoc k props'
  end.

(** What a reader of the JSON text finds under [k]: [JSON.stringify] leaves
    out the properties whose value is [undefined]. *)
Definition json_field (v : jsval) (k : string) : option jsval :=
  match opt_member v k with
  | VUndefined => None
  | x => Some x
  end.

(** [Math.min(a, b)] and [Math.max(a, b)] on numbers. *)
Definition Math_min (a b : jsnum) : jsnum :=
  match a, b with
  | NaN, _ | _, NaN => NaN
  | NegInf, _ | _, NegInf => NegInf
  | PosInf, x | x, PosInf => x
  | Fin x, Fin y => Fin (Z.min x y)
  end.

Definition Math_max (a b : jsnum) : jsnum :=
  match a, b with
  | NaN, _ | _, NaN => NaN
  | PosInf, _ | _, PosInf => PosInf
  | NegInf, x | x, NegInf => x
  | Fin x, Fin y => Fin (Z.max x y)
  end.


(** ** Provider client, outbound calls, errors *)

(** The template literal [`Bearer ${apiKey}`], kept with its argument. *)
Inductive template := Bearer (apiKey : jsval).

Record client := Client {
  baseURL : jsval;
  timeout : Z;
  Authorization : template;
  X_API_Secret : jsval;
  Content_Type : jstr
}.

(** [client.get(path, { params })] *)
Record outcall := Outcall {
  oc_client : client;
  oc_path : jstr;
  oc_params : gmap jstr jsval
}.

(** [response] of a resolved call and [error.response] of a rejected one. *)
Record upstream_response := Response { status : Z; data : jsval }.

(** A thrown error: [error.message] and [error.response]. *)
Record js_error := Error { message : jstr; response : option upstream_response }.

Inductive answer := Resolve (r : upstream_response) | Reject (e : js_error).

(** [res.status(code).json(payload)] *)
Record reply := Reply { code : Z; payload : jsval }.

Inductive event := Created (c : client) | Requested (o : outcall).

(** ** Handlers as computations: a trace of events and a completion *)

Inductive completion (A : Type) := Normal (a : A) | Throw (e : js_error).
Arguments Normal {A} a.
Arguments Throw {A} e.

Definition Eff (A : Type) : Type := list event * completion A.

Definition ret {A} (a : A) : Eff A := ([], Normal a).
Definition throw {A} (e : js_error) : Eff A := ([], Throw e).
Definition emit (ev : event) : Eff unit := ([ev], Normal tt).

Definition bind {A B} (m : Eff A) (f : A -> Eff B) : Eff B :=
  match m with
  | (t, Normal a) => (t ++ fst (f a), snd (f a))
  | (t, Throw e) => (t, Throw e)
  end.

(** [try { m } catch (error) { h error }] *)
Definition try_catch {A} (m : Eff A) (h : js_error -> Eff A) : Eff A :=
  match m with
  | (t, Throw e) => (t ++ fst (h e), snd (h e))
  | (t, Normal a) => (t, Normal a)
  end.

Notation "'let*' x ':=' m 'in' k" := (bind m (fun x => k))
  (at level 10, x name, m at level 100, k at level 200).

Definition trace {A} (m : Eff A) : list event := fst m.

(** The reply a route sends, if it sends one. *)
Definition sent (m : Eff reply) : option reply :=
  match snd m with Normal r => Some r | Throw _ => None end.

(** A [TypeError] has a message and no [response]. *)
Definition TypeError (msg : string) : js_error := Error (lit msg) None.

(** [v.k] where [v] may be [null] or [undefined]; see [opt_member] for the
    other values. *)
Definition member (v : jsval) (k : string) : Eff jsval :=
  match v with
  | VUndefined => throw (TypeError "Cannot read properties of undefined")
  | VNull => throw (TypeError "Cannot read properties of null")
  | _ => ret (opt_member v k)
  end.

(** [req]: the parts the program reads.  Header values, route parameters and
    query values are strings ([req.query] under the simple parser);
    [req.body] is the object [express.json()] leaves there. *)
Record request := Request {
  headers : gmap jstr jstr;
  params : gmap jstr jstr;
  query : gmap jstr jstr;
  body : gmap jstr jsval;
  fieldRoutesClient : option client
}.

(** [req.fieldRoutesClient = c] *)
Definition attach (req : request) (c : client) : request :=
  Request (headers req) (params req) (query req) (body req) (Some c).

(** [testClient.defaults.baseURL = url] *)
Definition set_baseURL (c : client) (url : jsval) : client :=
  Client url (timeout c) (Authorization c) (X_API_Secret c) (Content_Type c).

(** [a || b] for a number-or-undefined [a]. *)
Definition or_num (a : option Z) (b : Z) : Z :=
  match a with
  | Some z => if (z =? 0)%Z then b else z
  | None => b
  end.

(** [error.response?.status === n] *)
Definition status_is (error : js_error) (n : Z) : bool :=
  match response error with
  | Some r => (status r =? n)%Z
  | None => false
  end.

(** ** The server *)

Section Server.

(** [process.env] *)
Variable env : gmap jstr jstr.

(** The provider behind axios: a call resolves with a response or rejects
    with an error (a status outside 2xx, a timeout, no connection). *)
Variable provider : outcall -> answer.

(** ToNumber on strings, as [Math.min] and [Math.max] apply it to a query
    value. *)
Variable StringToNumber : jstr -> jsnum.

(** [FIELDROUTES_CONFIG.baseURL] *)
Definition FIELDROUTES_baseURL : jsval :=
  or_ (str_val (env !! lit "FIELDROUTES_API_URL"))
      (VStr (lit "https://api.fieldroutes.com/v1")).

Definition createFieldRoutesClient (apiKey apiSecret : jsval) : Eff client :=
  let c := {| baseURL := FIELDROUTES_baseURL;
              timeout := 10000;
              Authorization := Bearer apiKey;
              X_API_Secret := apiSecret;
              Content_Type := lit "application/json" |} in
  let* _ := emit (Created c) in
  ret c.

(** [await promise]: the response of a resolved call, or the error of a
    rejected one, thrown. *)
Definition await (a : answer) : Eff upstream_response :=
  match a with
  | Resolve r => ret r
  | Reject e => throw e
  end.

(** [await c.get(path, { params })] *)
Definition get (c : option client) (path : jstr) (ps : gmap jstr jsval)
  : Eff upstream_response :=
  match c with
  | None => throw (TypeError "Cannot read properties of undefined")
  | Some c =>
      let o := Outcall c path ps in
      let* _ := emit (Requested o) in
      await (provider o)
  end.

(** [res.json(body)] *)
Definition json (b : jsval) : Eff reply := ret (Reply 200 b).

(** [res.status(code).json({ error, message })] *)
Definition fail (c : Z) (error msg : string) : Eff reply :=
  ret (Reply c (object [prop "error" (VStr (lit error)); prop "message" (VStr (lit msg))])).

(** The [console.error] of the source leaves no trace here. *)
Definition handleApiError (error : js_error) (defaultMessage : string) : Eff reply :=
  let response_data := from_option data VUndefined (response error) in
  let status := or_num (status <$> response error) 500 in
  let message :=
    or_ (or_ (opt_member response_data "message") (VStr (message error)))
        (VStr (lit defaultMessage)) in
  ret (Reply status
         (object [prop "error" (VStr (lit "API Error"));
                  prop "message" message;
                  prop "details"
                    (if bool_decide (env !! lit "NODE_ENV" = Some (lit "development"))
                     then response_data else VUndefined)])).

Definition validateCredentials (req : request) (next : request -> Eff reply)
  : Eff reply :=
  let apiKey := str_val (headers req !! lit "apiKey") in
  let apiSecret := str_val (headers req !! lit "apiSecret") in
  if not_ apiKey || not_ apiSecret then
    fail 401 "Missing API credentials" "API key and secret are required"
  else
    let* c := createFieldRoutesClient apiKey apiSecret in
    next (attach req c).

(** [const { k = d } = req.query] and the ToNumber that [Math.min] and
    [Math.max] apply: the default is a number already. *)
Definition number_param (req : request) (k : string) (d : Z) : jsnum :=
  match query req !! lit k with
  | Some s => StringToNumber s
  | None => Fin d
  end.

(** [{ success: true, data: response.data[k] || [], total: response.data.total || 0 }] *)
Definition listing (response : upstream_response) (k : string)
    (more : list (string * jsval)) : Eff reply :=
  let* items := member (data response) k in
  let* total := member (data response) "total" in
  json (object ([prop "success" (VBool true);
                 prop "data" (or_ items (VArr []));
                 prop "total" (or_ total (VNum (Fin 0)))] ++ more)).

(** Search customers by email.  In [!email || !isValidEmail(email)] the
    right operand is evaluated on a non-empty string only. *)
Definition search_email (req : request) : Eff reply :=
  try_catch
    (match params req !! lit "email" with
     | Some email =>
         if not_ (VStr email) || negb (isValidEmail email) then
           fail 400 "Invalid email address" "Please provide a valid email address"
         else
           let* response :=
             get (fieldRoutesClient req) (lit "/customers")
               (<[lit "email" := VStr email]> {[lit "limit" := VNum (Fin 10)]}) in
           listing response "customers" []
     | None =>
         fail 400 "Invalid email address" "Please provide a valid email address"
     end)
    (fun error => handleApiError error "Failed to search customers by email").

(** Search customers by phone. *)
Definition search_phone (req : request) : Eff reply :=
  try_catch
    (match params req !! lit "phone" with
     | Some phone =>
         if not_ (VStr phone) then
           fail 400 "Phone number required" "Please provide a phone number"
         else
           let* response :=
             get (fieldRoutesClient req) (lit "/customers")
               (<[lit "phone" := VStr (cleanPhone phone)]>
                  {[lit "limit" := VNum (Fin 10)]}) in
           listing response "customers" []
     | None =>
         fail 400 "Phone number required" "Please provide a phone number"
     end)
    (fun error => handleApiError error "Failed to search customers by phone").

(** General customer search. *)
Definition search (req : request) : Eff reply :=
  try_catch
    (let limit := number_param req "limit" 10 in
     let offset := number_param req "offset" 0 in
     match query req !! lit "q" with
     | Some q =>
         if not_ (VStr q) || (length (trim q) <? 2) then
           fail 400 "Invalid search query"
             "Search query must be at least 2 characters long"
         else
           let* response :=
             get (fieldRoutesClient req) (lit "/customers/search")
               (<[lit "q" := VStr (trim q)]>
                  (<[lit "limit" := VNum (Math_min limit (Fin 50))]>
                     {[lit "offset" := VNum (Math_max offset (Fin 0))]})) in
           listing response "customers" [prop "query" (VStr (trim q))]
     | None =>
         fail 400 "Invalid search query"
           "Search query must be at least 2 characters long"
     end)
    (fun error => handleApiError error "Failed to search customers").

(** The [catch] of the two routes that answer a provider 404 themselves. *)
Definition not_found_or (defaultMessage : string) (error : js_error) : Eff reply :=
  if status_is error 404 then
    fail 404 "Customer not found" "No customer found with the provided ID"
  else handleApiError error defaultMessage.

(** Get customer by ID. *)
Definition customer (req : request) : Eff reply :=
  try_catch
    (match params req !! lit "id" with
     | Some id =>
         if not_ (VStr id) || negb (isValidCustomerId id) then
           fail 400 "Invalid customer ID" "Please provide a valid customer ID"
         else
           let* response :=
             get (fieldRoutesClient req) (lit "/customers/" ++ id) ∅ in
           json (object [prop "success" (VBool true); prop "data" (data response)])
     | None =>
         fail 400 "Invalid customer ID" "Please provide a valid customer ID"
     end)
    (not_found_or "Failed to fetch customer").

(** Get customer service history. *)
Definition services (req : request) : Eff reply :=
  try_catch
    (let limit := number_param req "limit" 20 in
     let offset := number_param req "offset" 0 in
     match params req !! lit "id" with
     | Some id =>
         if not_ (VStr id) || negb (isValidCustomerId id) then
           fail 400 "Invalid customer ID" "Please provide a valid customer ID"
         else
           let* response :=
             get (fieldRoutesClient req) (lit "/customers/" ++ id ++ lit "/services")
               (<[lit "limit" := VNum (Math_min limit (Fin 100))]>
                  (<[lit "offset" := VNum (Math_max offset (Fin 0))]>
                     {[lit "sort" := VStr (lit "date_desc")]})) in
           listing response "services" []
     | None =>
         fail 400 "Invalid customer ID" "Please provide a valid customer ID"
     end)
    (not_found_or "Failed to fetch service history").

(** Get customer appointments. *)
Definition appointments (req : request) : Eff reply :=
  try_catch
    (let status := default (lit "all") (query req !! lit "status") in
     let limit := number_param req "limit" 10 in
     match params req !! lit "id" with
     | Some id =>
         if not_ (VStr id) || negb (isValidCustomerId id) then
           fail 400 "Invalid customer ID" "Please provide a valid customer ID"
         else
           let ps : gmap jstr jsval :=
             <[lit "customer_id" := VStr id]>
               {[lit "limit" := VNum (Math_min limit (Fin 50))]} in
           let ps :=
             if bool_decide (status <> lit "all")
             then <[lit "status" := VStr status]> ps else ps in
           let* response := get (fieldRoutesClient req) (lit "/appointments") ps in
           listing response "appointments" []
     | None =>
         fail 400 "Invalid customer ID" "Please provide a valid customer ID"
     end)
    (fun error => handleApiError error "Failed to fetch appointments").

(** Test API credentials. *)
Definition test_credentials (req : request) : Eff reply :=
  try_catch
    (let apiKey := field (body req) "apiKey" in
     let apiSecret := field (body req) "apiSecret" in
     let baseUrl := field (body req) "baseUrl" in
     if not_ apiKey || not_ apiSecret then
       fail 400 "Missing credentials" "API key and secret are required"
     else
       let* c := createFieldRoutesClient apiKey apiSecret in
       let testClient := if truthy baseUrl then set_baseURL c baseUrl else c in
       let* response :=
         get (Some testClient) (lit "/customers") {[lit "limit" := VNum (Fin 1)]} in
       json (object [prop "success" (VBool true);
                     prop "message" (VStr (lit "Credentials are valid"));
                     prop "data" (object [prop "connected" (VBool true);
                                           prop "baseUrl" (baseURL testClient)])]))
    (fun error =>
       if status_is error 401 || status_is error 403 then
         fail 401 "Invalid credentials" "The provided API credentials are invalid"
       else handleApiError error "Failed to test credentials").

(** The routes as registered with [app.get] and [app.post]. *)
Inductive route :=
| SearchEmail        (* GET /api/customers/search/email/:email *)
| SearchPhone        (* GET /api/customers/search/phone/:phone *)
| Search             (* GET /api/customers/search *)
| Customer           (* GET /api/customers/:id *)
| Services           (* GET /api/customers/:id/services *)
| Appointments       (* GET /api/customers/:id/appointments *)
| TestCredentials.   (* POST /api/test-credentials *)

Definition handler (r : route) : request -> Eff reply :=
  match r with
  | SearchEmail => search_email
  | SearchPhone => search_phone
  | Search => search
  | Customer => customer
  | Services => services
  | Appointments => appointments
  | TestCredentials => test_credentials
  end.

Definition serve (r : route) (req : request) : Eff reply :=
  match r with
  | TestCredentials => test_credentials req
  | _ => validateCredentials req (handler r)
  end.

End Server.

(** ** The specification's wording of the patterns *)

(** A non-empty run of code units that all satisfy [ok]. *)
Definition run (ok : N -> bool) (s : jstr) : Prop :=
  s <> [] /\ forallb ok s = true.

Definition not_space (c : N) : bool := negb (is_space c).
Definition not_space_nor_at (c : N) : bool :=
  negb (is_space c) && negb (c =? ch "@")%N.

(** The email pattern as the specification words it: non-whitespace non-'@'
    characters, '@', non-whitespace non-'@' characters, '.', non-whitespace
    characters. *)
Definition spec_email_pattern (s : jstr) : Prop :=
  exists a b c,
    s = a ++ [ch "@"] ++ b ++ [ch "."] ++ c
    /\ run not_space_nor_at a /\ run not_space_nor_at b /\ run not_space c.

(** The pattern of the source: the last run excludes '@' as well. *)
Definition email_shape (s : jstr) : Prop :=
  exists a b c,
    s = a ++ [ch "@"] ++ b ++ [ch "."] ++ c
    /\ run not_space_nor_at a /\ run not_space_nor_at b
    /\ run not_space_nor_at c.

(** An ASCII letter, digit, hyphen or underscore. *)
Definition id_char (c : N) : bool :=
  ((ch "a" <=? c) && (c <=? ch "z") || (ch "A" <=? c) && (c <=? ch "Z")
   || (ch "0" <=? c) && (c <=? ch "9") || (c =? ch "-") || (c =? ch "_"))%N.

(** ** Vocabulary of the statements *)

(** Both credential headers are there, with a value. *)
Definition credentialed (req : request) : Prop :=
  exists k s,
    headers req !! lit "apiKey" = Some k /\ headers req !! lit "apiSecret" = Some s
    /\ k <> [] /\ s <> [].

(** The run [m] called the provider, and the call was rejected with
    HTTP status [n]. *)
Definition call_failed (provider : outcall -> answer) (m : Eff reply) (n : Z) : Prop :=
  exists o e r,
    In (Requested o) (trace m) /\ provider o = Reject e
    /\ response e = Some r /\ status r = n.

(** The run [m] called the provider, and the call resolved with the
    response body [d]. *)
Definition call_resolved (provider : outcall -> answer) (m : Eff reply) (d : jsval) : Prop :=
  exists o r,
    In (Requested o) (trace m) /\ provider o = Resolve r /\ data r = d.

(** The run made no call to the provider. *)
Definition no_request (m : Eff reply) : Prop :=
  forall o, ~ In (Requested o) (trace m).

(** The reply [{ error, message }] with status [c]. *)
Definition error_reply (c : Z) (error msg : string) : reply :=
  Reply c (object [prop "error" (VStr (lit error)); prop "message" (VStr (lit msg))]).

(** [error.response?.data?.message]: the message field the provider reported. *)
Definition provider_message (error : js_error) : jsval :=
  match response error with
  | Some r => opt_member (data r) "message"
  | None => VUndefined
  end.

(** The paging parameters of an outbound call. *)
Definition out_limit (o : outcall) : option jsval := oc_params o !! lit "limit".
Definition out_offset (o : outcall) : option jsval := oc_params o !! lit "offset".

(** The cap of a route on the outbound limit. *)
Definition cap (r : route) : option Z :=
  match r with
  | Search | Appointments => Some 50%Z
  | Services => Some 100%Z
  | SearchEmail | SearchPhone => Some 10%Z
  | Customer | TestCredentials => None
  end.



(** The default message a route hands to the error normaliser. *)
Definition default_message (r : route) : string :=
  match r with
  | SearchEmail => "Failed to search customers by email"
  | SearchPhone => "Failed to search customers by phone"
  | Search => "Failed to search customers"
  | Customer => "Failed to fetch customer"
  | Services => "Failed to fetch service history"
  | Appointments => "Failed to fetch appointments"
  | TestCredentials => "Failed to test credentials"
  end%string.

(** The [catch] block of a route. *)
Definition on_error (env : gmap jstr jstr) (r : route) (error : js_error) : Eff reply :=
  match r with
  | Customer | Services => not_found_or env (default_message r) error
  | TestCredentials =>
      if status_is error 401 || status_is error 403 then
        fail 401 "Invalid credentials" "The provided API credentials are invalid"
      else handleApiError env error (default_message r)
  | _ => handleApiError env error (default_message r)
  end.

(** The limit a paging route sends when the request names none. *)
Definition default_limit (r : route) : Z :=
  match r with
  | Services => 20%Z
  | _ => 10%Z
  end.

(** The statuses a route answers itself instead of mirroring them. *)
Definition own_status (r : route) (n : Z) : Prop :=
  match r with
  | Customer | Services => n = 404%Z
  | TestCredentials => n = 401%Z \/ n = 403%Z
  | _ => False
  end.

(** The property of the provider's response body that a listing route reads. *)
Definition list_key (r : route) : string :=
  match r with
  | Services => "services"
  | Appointments => "appointments"
  | _ => "customers"
  end%string.

(** The run [m] called the provider, and the call was rejected with [e]. *)
Definition call_rejected (provider : outcall -> answer) (m : Eff reply) (e : js_error)
  : Prop :=
  exists o, In (Requested o) (trace m) /\ provider o = Reject e.

(** The success envelope: status 200, [success: true], no error fields. *)
Definition success_envelope (rep : reply) : Prop :=
  code rep = 200%Z
  /\ json_field (payload rep) "success" = Some (VBool true)
  /\ json_field (payload rep) "error" = None
  /\ json_field (payload rep) "details" = None.

(** The error envelope: an [error] string and a [message], no [success]. *)
Definition error_envelope (rep : reply) : Prop :=
  json_field (payload rep) "success" = None
  /\ (exists e, json_field (payload rep) "error" = Some (VStr e))
  /\ is_Some (json_field (payload rep) "message").

(** The configured base URL as a string: [FIELDROUTES_API_URL] unless it is
    unset or empty. *)
Definition configured_url (env : gmap jstr jstr) : jstr :=
  match env !! lit "FIELDROUTES_API_URL" with
  | Some (c :: u) => c :: u
  | _ => lit "https://api.fieldroutes.com/v1"
  end.

(** ** The header object of an inbound request *)

(** An upper-case ASCII letter, and [toLowerCase] on the code units of a
    header name (header names are ASCII tokens). *)
Definition is_upper (c : N) : bool := ((65 <=? c) && (c <=? 90))%N.

Definition to_lower (c : N) : N := if is_upper c then (c + 32)%N else c.

(** [req.headers] as Node's HTTP parser builds it from the header lines of a
    request: the names are lower-cased.  (Of lines that repeat a name Node
    merges the values; the names of the object are the same.) *)
Definition incoming_headers (lines : list (jstr * jstr)) : gmap jstr jstr :=
  list_to_map (List.map (fun kv => (List.map to_lower (fst kv), snd kv)) lines).

(** A request as Express hands it to the first handler of a route. *)
Definition inbound (lines : list (jstr * jstr)) (ps qs : gmap jstr jstr)
    (b : gmap jstr jsval) : request :=
  Request (incoming_headers lines) ps qs b None.

(** ** Sample inputs *)

(** The header lines [apiKey: key] and [apiSecret: secret]. *)
Definition credential_lines : list (jstr * jstr) :=
  [(lit "apiKey", lit "key"); (lit "apiSecret", lit "secret")].


(** A provider that gives every call the same answer. *)
Definition always (a : answer) : outcall -> answer := fun _ => a.

(** A coercion for the samples: the value of a string of decimal digits. *)
Definition decimal (s : jstr) : jsnum :=
  if forallb is_digit s
  then Fin (fold_left (fun acc c => 10 * acc + (Z.of_N c - 48))%Z s 0%Z)
  else NaN.

(** A handler that answers [true]. *)
Definition next_true : request -> Eff reply := fun _ => ret (Reply 200 (VBool true)).

Definition with_headers (h : gmap jstr jstr) : request := Request h ∅ ∅ ∅ None.

Definition credentials : gmap jstr jstr :=
  <[lit "apiKey" := lit "key"]> {[lit "apiSecret" := lit "secret"]}.

(** A credentialed request with one route parameter and one query value. *)
Definition sample_request (pk pv qk qv : string) : request :=
  Request credentials {[lit pk := lit pv]} {[lit qk := lit qv]} ∅ None.

(** A credentialed free-text search for ["ab"] that asks for 500 results. *)
Definition sample_search : request :=
  Request credentials ∅ (<[lit "q" := lit "ab"]> {[lit "limit" := lit "500"]}) ∅ None.

(** The client that [credentials] yield in the default environment. *)
Definition sample_client : client :=
  Client (VStr (lit "https://api.fieldroutes.com/v1")) 10000
    (Bearer (VStr (lit "key"))) (VStr (lit "secret")) (lit "application/json").

(** The call that [sample_search] leads to. *)
Definition sample_search_call : outcall :=
  Outcall sample_client (lit "/customers/search")
    (<[lit "q" := VStr (lit "ab")]>
       (<[lit "limit" := VNum (Fin 50)]> {[lit "offset" := VNum (Fin 0)]})).

(** A request without credential headers, with one route parameter. *)
Definition anonymous_request (pk pv : string) : request :=
  Request ∅ {[lit pk := lit pv]} ∅ ∅ None.

(** An axios error for a call that got no response in time. *)
Definition timeout_error : js_error := Error (lit "timeout of 10000ms exceeded") None.

(** A provider response body with one customer, one service, one
    appointment and a total. *)
Definition sample_body : gmap jstr jsval :=
  <[lit "customers" := VArr [VStr (lit "Ann")]]>
    (<[lit "services" := VArr [VStr (lit "spray")]]>
       (<[lit "appointments" := VNull]> {[lit "total" := VNum (Fin 3)]})).

(** A credential-test request that names its own base URL. *)
Definition sample_test : request :=
  Request ∅ ∅ ∅
    (<[lit "apiKey" := VStr (lit "key")]>
       (<[lit "apiSecret" := VStr (lit "secret")]>
          {[lit "baseUrl" := VStr (lit "https://example.test")]})) None.

(** An axios error for a response with status [n] and body [d]. *)
Definition http_error (n : Z) (d : jsval) : js_error :=
  Error (lit "Request failed") (Some (Response n d)).

(** ** Facts about regular expressions *)

Section RegexFacts.

Lemma Matches_cat_inv r1 r2 s :
  Matches (Cat r1 r2) s ->
  exists s1 s2, s = s1 ++ s2 /\ Matches r1 s1 /\ Matches r2 s2.
Proof. inversion 1; subst; eauto. Qed.

Lemma nullable_Matches r : nullable r = true <-> Matches r [].
Proof.
  induction r; simpl.
  - split; [discriminate | inversion 1].
  - split; [constructor | done].
  - split; [discriminate | inversion 1].
  - split; [discriminate | inversion 1].
  - rewrite andb_true_iff, IHr1, IHr2. split.
    + intros [H1 H2]. change (@nil N) with (@nil N ++ []). now constructor.
    + intros H. apply Matches_cat_inv in H as (s1 & s2 & E & H1 & H2).
      symmetry in E. apply app_eq_nil in E as [-> ->]. done.
  - rewrite orb_true_iff, IHr1, IHr2. split.
    + intros [H|H]; [now apply MAltL | now apply MAltR].
    + inversion 1; subst; tauto.
  - split; [constructor | done].
Qed.

(** A non-empty word of [r*] starts with a non-empty word of [r]. *)
Lemma Matches_star_cons r c s :
  Matches (Star r) (c :: s) ->
  exists s1 s2, s = s1 ++ s2 /\ Matches r (c :: s1) /\ Matches (Star r) s2.
Proof.
  remember (Star r) as r' eqn:Er. remember (c :: s) as w eqn:Ew.
  intros H. revert Er Ew.
  induction H; intros Er Ew; try discriminate.
  injection Er as ->. destruct s1 as [|d s1]; simpl in Ew.
  - auto.
  - injection Ew as -> <-. eauto.
Qed.

Lemma deriv_Matches c r s : Matches (deriv c r) s <-> Matches r (c :: s).
Proof.
  revert s; induction r; intros s; simpl.
  - split; inversion 1.
  - split; inversion 1.
  - destruct (N.eqb_spec c c0) as [->|Hne]; split; intros H.
    + inversion H; subst. constructor.
    + inversion H; subst. constructor.
    + inversion H.
    + inversion H; subst. congruence.
  - destruct (in_class cs c) eqn:Hc; split; intros H.
    + inversion H; subst. now constructor.
    + inversion H; subst. constructor.
    + inversion H.
    + inversion H; subst. congruence.
  - assert (Hcat : Matches (Cat (deriv c r1) r2) s ->
                   Matches (Cat r1 r2) (c :: s)).
    { intros H. apply Matches_cat_inv in H as (s1 & s2 & -> & H1 & H2).
      apply IHr1 in H1. change (c :: s1 ++ s2) with ((c :: s1) ++ s2).
      now constructor. }
    assert (Hinv : Matches (Cat r1 r2) (c :: s) ->
                   Matches (Cat (deriv c r1) r2) s
                   \/ (Matches r1 [] /\ Matches r2 (c :: s))).
    { intros H. apply Matches_cat_inv in H as (s1 & s2 & E & H1 & H2).
      destruct s1 as [|d s1]; simpl in E.
      - subst s2. auto.
      - injection E as <- ->. left. constructor; [now apply IHr1 | done]. }
    destruct (nullable r1) eqn:Hn; split; intros H.
    + inversion H; subst; [auto|].
      change (c :: s) with ([] ++ c :: s). constructor.
      * now apply nullable_Matches.
      * now apply IHr2.
    + destruct (Hinv H) as [H'|[_ H']]; [now apply MAltL|].
      apply MAltR. now apply IHr2.
    + auto.
    + destruct (Hinv H) as [H'|[H' _]]; [done|].
      apply nullable_Matches in H'. congruence.
  - split; intros H; inversion H; subst.
    + apply MAltL. now apply IHr1.
    + apply MAltR. now apply IHr2.
    + apply MAltL. now apply IHr1.
    + apply MAltR. now apply IHr2.
  - split; intros H.
    + apply Matches_cat_inv in H as (s1 & s2 & -> & H1 & H2).
      apply IHr in H1. change (c :: s1 ++ s2) with ((c :: s1) ++ s2).
      now constructor.
    + apply Matches_star_cons in H as (s1 & s2 & -> & H1 & H2).
      constructor; [now apply IHr | done].
Qed.

(** The matcher decides the language. *)
Lemma test_anchored_Matches r s : test_anchored r s = true <-> Matches r s.
Proof.
  revert r; induction s as [|c s IH]; intros r; simpl.
  - apply nullable_Matches.
  - rewrite IH. apply deriv_Matches.
Qed.

Lemma Matches_star_cls cs s :
  Matches (Star (Cls cs)) s <-> forallb (in_class cs) s = true.
Proof.
  split.
  - remember (Star (Cls cs)) as r eqn:Er. intros H. revert Er.
    induction H; intros Er; try discriminate; [done|].
    injection Er as ->. inversion H; subst. simpl.
    apply andb_true_iff. auto.
  - induction s as [|c s IH]; simpl; intros H; [constructor|].
    apply andb_true_iff in H as [Hc Hs].
    change (c :: s) with ([c] ++ s). constructor; [now constructor | auto].
Qed.

(** [[cs]+] matches the non-empty runs of the class. *)
Lemma Matches_plus_cls cs s :
  Matches (Plus (Cls cs)) s <-> run (in_class cs) s.
Proof.
  unfold Plus, run. split.
  - intros H. apply Matches_cat_inv in H as (s1 & s2 & -> & H1 & H2).
    inversion H1; subst. apply Matches_star_cls in H2. simpl.
    split; [done|]. apply andb_true_iff. auto.
  - intros [Hne H]. destruct s as [|c s]; [done|]. simpl in H.
    apply andb_true_iff in H as [Hc Hs].
    change (c :: s) with ([c] ++ s).
    constructor; [now constructor | now apply Matches_star_cls].
Qed.

Lemma Matches_chr_cat c r s :
  Matches (Cat (Chr c) r) s <-> exists s', s = [c] ++ s' /\ Matches r s'.
Proof.
  split.
  - intros H. apply Matches_cat_inv in H as (s1 & s2 & -> & H1 & H2).
    inversion H1; subst. eauto.
  - intros (s' & -> & H). constructor; [constructor | done].
Qed.

Lemma run_ext (f g : N -> bool) s :
  (forall c, f c = g c) -> run f s <-> run g s.
Proof.
  intros E. unfold run.
  assert (forallb f s = forallb g s) as ->; [|tauto].
  induction s as [|c s IH]; simpl; [done|]. now rewrite E, IH.
Qed.

End RegexFacts.

(** ** The validators *)

Section Validators.

Lemma in_class_not_space_at c : in_class not_space_at c = not_space_nor_at c.
Proof.
  unfold in_class, not_space_at, not_space_nor_at.
  cbn [negated items existsb item_has].
  destruct (is_space c), (c =? ch "@")%N; reflexivity.
Qed.

Lemma in_class_id_chars c : in_class id_chars c = id_char c.
Proof.
  unfold in_class, id_chars, id_char.
  cbn [negated items existsb item_has xorb].
  rewrite orb_false_r, !orb_assoc. reflexivity.
Qed.

Lemma in_class_non_digit c : in_class non_digit c = negb (is_digit c).
Proof.
  unfold in_class, non_digit. cbn [negated items existsb item_has].
  now rewrite orb_false_r.
Qed.

Lemma run_not_space_at s : run (in_class not_space_at) s <-> run not_space_nor_at s.
Proof. apply run_ext, in_class_not_space_at. Qed.

(** The email validator accepts exactly the strings of [email_shape]. *)
Lemma isValidEmail_shape s : isValidEmail s = true <-> email_shape s.
Proof.
  unfold isValidEmail, emailRegex, email_shape.
  rewrite test_anchored_Matches. split.
  - intros H.
    apply Matches_cat_inv in H as (a & s1 & -> & Ha & H).
    apply Matches_chr_cat in H as (s2 & -> & H).
    apply Matches_cat_inv in H as (b & s3 & -> & Hb & H).
    apply Matches_chr_cat in H as (c & -> & Hc).
    apply Matches_plus_cls, run_not_space_at in Ha, Hb, Hc.
    exists a, b, c. auto.
  - intros (a & b & c & -> & Ha & Hb & Hc).
    apply run_not_space_at, Matches_plus_cls in Ha, Hb, Hc.
    constructor; [done|]. apply Matches_chr_cat. eexists; split; [done|].
    constructor; [done|]. apply Matches_chr_cat. eauto.
Qed.

Lemma isValidCustomerId_spec id :
  isValidCustomerId id = true <->
  forallb id_char id = true /\ 1 <= length id <= 99.
Proof.
  unfold isValidCustomerId.
  rewrite !andb_true_iff, test_anchored_Matches, Matches_plus_cls.
  rewrite (run_ext _ _ id in_class_id_chars). unfold run.
  rewrite Nat.ltb_lt, Nat.ltb_lt. split.
  - intros [[[_ H] ?] ?]. split; [done | lia].
  - intros [H ?]. repeat split; try lia; try done.
    destruct id; simpl in *; [lia | done].
Qed.

Lemma cleanPhone_filter s : cleanPhone s = List.filter is_digit s.
Proof.
  unfold cleanPhone, replace_all.
  induction s as [|c s IH]; simpl; [done|].
  rewrite in_class_non_digit, IH. now destruct (is_digit c).
Qed.

Lemma filter_all {A} (f : A -> bool) l :
  forallb f l = true -> List.filter f l = l.
Proof.
  induction l as [|x l IH]; simpl; [done|].
  intros H. apply andb_true_iff in H as [-> H]. now rewrite IH.
Qed.

Lemma forallb_filter {A} (f : A -> bool) l : forallb f (List.filter f l) = true.
Proof.
  induction l as [|x l IH]; simpl; [done|].
  destruct (f x) eqn:E; simpl; [now rewrite E|done].
Qed.

End Validators.

(** ** Facts about values *)

Section ValueFacts.

Lemma lit_inj s1 s2 : lit s1 = lit s2 -> s1 = s2.
Proof.
  unfold lit. intros H.
  rewrite <- (string_of_list_ascii_of_string s1), <- (string_of_list_ascii_of_string s2).
  f_equal. revert H. generalize (list_ascii_of_string s1) (list_ascii_of_string s2).
  induction l as [|a l IH]; intros [|b l']; simpl; try discriminate; [done|].
  intros H. injection H as Ha Hl. f_equal; [|auto].
  rewrite <- (ascii_N_embedding a), <- (ascii_N_embedding b). now rewrite Ha.
Qed.

Lemma opt_member_object props k : opt_member (object props) k = assoc k props.
Proof.
  unfold object, opt_member, field.
  induction props as [|[k' v] props IH]; simpl; [done|].
  rewrite lookup_insert. destruct (String.eqb_spec k k') as [->|Hne].
  - now rewrite decide_True.
  - rewrite decide_False; [done|]. intros E. apply lit_inj in E. congruence.
Qed.

Lemma truthy_str s : truthy (VStr s) = true <-> s <> [].
Proof. simpl. rewrite negb_true_iff, bool_decide_eq_false. tauto. Qed.

Lemma not_str_val o : not_ (str_val o) = false <-> exists s, o = Some s /\ s <> [].
Proof.
  unfold not_. rewrite negb_false_iff. destruct o as [s|]; simpl.
  - rewrite negb_true_iff, bool_decide_eq_false. split; [eauto|].
    now intros (? & [= <-] & ?).
  - split; [done|]. now intros (? & ? & ?).
Qed.

Lemma credentialed_check req :
  not_ (str_val (headers req !! lit "apiKey"))
  || not_ (str_val (headers req !! lit "apiSecret")) = false
  <-> credentialed req.
Proof.
  rewrite orb_false_iff, !not_str_val. unfold credentialed. split.
  - intros [(k & ? & ?) (s & ? & ?)]. eauto 10.
  - intros (k & s & ? & ? & ? & ?). split; eauto.
Qed.

Lemma isValidEmail_nonempty e : isValidEmail e = true -> e <> [].
Proof. now intros H ->. Qed.

Lemma isValidCustomerId_nonempty id : isValidCustomerId id = true -> id <> [].
Proof. now intros H ->. Qed.

Lemma not_VStr s : s <> [] -> not_ (VStr s) = false.
Proof. intros H. unfold not_. apply negb_false_iff. now apply truthy_str. Qed.

Lemma not_VStr_nil : not_ (VStr []) = true.
Proof. done. Qed.

Lemma json_field_object props k :
  json_field (object props) k
  = match assoc k props with VUndefined => None | x => Some x end.
Proof. unfold json_field. now rewrite opt_member_object. Qed.

(** *** Trimming *)

Lemma trim_start_head s x t : trim_start s = x :: t -> is_space x = false.
Proof.
  induction s as [|c s IH]; simpl; [done|].
  destruct (is_space c) eqn:E; [done|]. now intros [= <- _].
Qed.

(** [trim_start] drops a prefix of white space. *)
Lemma trim_start_split s :
  exists pre, s = pre ++ trim_start s /\ forallb is_space pre = true.
Proof.
  induction s as [|c s (pre & E & Hp)]; simpl; [now exists []|].
  destruct (is_space c) eqn:Ec.
  - exists (c :: pre). simpl. rewrite Ec, Hp. split; [now f_equal|done].
  - now exists [].
Qed.

Lemma trim_last s x t : trim s = t ++ [x] -> is_space x = false.
Proof.
  unfold trim. intros E. apply (f_equal (@rev N)) in E.
  rewrite rev_involutive, rev_app_distr in E. simpl in E.
  now apply trim_start_head in E.
Qed.

Lemma trim_head s x t : trim s = x :: t -> is_space x = false.
Proof.
  unfold trim. intros E. apply (f_equal (@rev N)) in E.
  rewrite rev_involutive in E. simpl in E.
  destruct (trim_start_split (rev (trim_start s))) as (pre & Es & _).
  rewrite E in Es. apply (f_equal (@rev N)) in Es.
  rewrite rev_involutive, !rev_app_distr, rev_involutive in Es. simpl in Es.
  now apply trim_start_head in Es.
Qed.

End ValueFacts.

(** ** Facts about the server *)

Section ServerFacts.
Variable env : gmap jstr jstr.
Variable provider : outcall -> answer.
Variable num : jstr -> jsnum.

Lemma validateCredentials_reject req next :
  ~ credentialed req ->
  validateCredentials env req next
  = ([], Normal (error_reply 401 "Missing API credentials" "API key and secret are required")).
Proof.
  intros H. unfold validateCredentials.
  destruct (_ || _) eqn:E; [done|]. now apply credentialed_check in E.
Qed.

Lemma validateCredentials_pass req next k s :
  headers req !! lit "apiKey" = Some k -> headers req !! lit "apiSecret" = Some s ->
  k <> [] -> s <> [] ->
  let c := Client (FIELDROUTES_baseURL env) 10000 (Bearer (VStr k)) (VStr s)
             (lit "application/json") in
  validateCredentials env req next
  = (Created c :: trace (next (attach req c)), snd (next (attach req c))).
Proof.
  intros Hk Hs Hk' Hs' c. unfold validateCredentials.
  destruct (_ || _) eqn:E.
  - assert (credentialed req) as C by (exists k, s; auto).
    apply credentialed_check in C. congruence.
  - rewrite Hk, Hs. reflexivity.
Qed.

Lemma try_get c p ps (k : upstream_response -> Eff reply) h :
  (forall r, trace (k r) = []) -> (forall e, trace (h e) = []) ->
  try_catch (let* r := get provider (Some c) p ps in k r) h
  = ([Requested (Outcall c p ps)],
     match provider (Outcall c p ps) with
     | Resolve r => snd (try_catch (k r) h)
     | Reject e => snd (h e)
     end).
Proof.
  intros Hk Hh. unfold get. cbn.
  destruct (provider _) as [r|e]; cbn.
  - specialize (Hk r). unfold trace in Hk. rewrite Hk.
    destruct (k r) as [t [a|e]]; cbn in *; [done|].
    specialize (Hh e). unfold trace in Hh. now rewrite Hh; subst.
  - specialize (Hh e). unfold trace in Hh. now rewrite Hh.
Qed.

Lemma trace_fail c e m : trace (fail c e m) = [].
Proof. done. Qed.
Lemma trace_handleApiError e d : trace (handleApiError env e d) = [].
Proof. done. Qed.
Lemma trace_not_found_or d e : trace (not_found_or env d e) = [].
Proof. unfold not_found_or. now destruct (status_is e 404). Qed.
Lemma trace_listing r k more : trace (listing r k more) = [].
Proof. unfold listing, member. now destruct (data r). Qed.


Lemma trace_json b : trace (json b) = [].
Proof. done. Qed.

(** *** The handlers on bad input *)

Lemma search_email_bad req :
  (forall e, params req !! lit "email" = Some e -> isValidEmail e = false) ->
  search_email env provider req
  = ([], Normal (error_reply 400 "Invalid email address"
                   "Please provide a valid email address")).
Proof.
  intros H. unfold search_email.
  destruct (params req !! lit "email") as [e|]; [|done].
  now rewrite (H e), orb_true_r.
Qed.

Lemma customer_bad req :
  (forall id, params req !! lit "id" = Some id -> isValidCustomerId id = false) ->
  customer env provider req
  = ([], Normal (error_reply 400 "Invalid customer ID"
                   "Please provide a valid customer ID")).
Proof.
  intros H. unfold customer.
  destruct (params req !! lit "id") as [id|]; [|done].
  now rewrite (H id), orb_true_r.
Qed.

Lemma services_bad req :
  (forall id, params req !! lit "id" = Some id -> isValidCustomerId id = false) ->
  services env provider num req
  = ([], Normal (error_reply 400 "Invalid customer ID"
                   "Please provide a valid customer ID")).
Proof.
  intros H. unfold services.
  destruct (params req !! lit "id") as [id|]; [|done].
  now rewrite (H id), orb_true_r.
Qed.

Lemma appointments_bad req :
  (forall id, params req !! lit "id" = Some id -> isValidCustomerId id = false) ->
  appointments env provider num req
  = ([], Normal (error_reply 400 "Invalid customer ID"
                   "Please provide a valid customer ID")).
Proof.
  intros H. unfold appointments.
  destruct (params req !! lit "id") as [id|]; [|done].
  now rewrite (H id), orb_true_r.
Qed.

(** *** The handlers on good input: one call, then the answer decides *)

Lemma search_email_good req c e :
  fieldRoutesClient req = Some c -> params req !! lit "email" = Some e ->
  isValidEmail e = true ->
  let o := Outcall c (lit "/customers")
             (<[lit "email" := VStr e]> {[lit "limit" := VNum (Fin 10)]}) in
  let h := fun error => handleApiError env error "Failed to search customers by email" in
  search_email env provider req
  = ([Requested o],
     match provider o with
     | Resolve r => snd (try_catch (listing r "customers" []) h)
     | Reject e => snd (h e)
     end).
Proof.
  intros Hc He Hv o h. unfold search_email. rewrite Hc, He, Hv.
  rewrite not_VStr by now apply isValidEmail_nonempty.
  cbn [orb negb]. apply try_get; [intros; apply trace_listing | done].
Qed.

Lemma search_phone_good req c p :
  fieldRoutesClient req = Some c -> params req !! lit "phone" = Some p -> p <> [] ->
  let o := Outcall c (lit "/customers")
             (<[lit "phone" := VStr (cleanPhone p)]> {[lit "limit" := VNum (Fin 10)]}) in
  let h := fun error => handleApiError env error "Failed to search customers by phone" in
  search_phone env provider req
  = ([Requested o],
     match provider o with
     | Resolve r => snd (try_catch (listing r "customers" []) h)
     | Reject e => snd (h e)
     end).
Proof.
  intros Hc Hp Hne o h. unfold search_phone. rewrite Hc, Hp, not_VStr by done.
  apply try_get; [intros; apply trace_listing | done].
Qed.

Lemma search_phone_bad req :
  (forall p, params req !! lit "phone" = Some p -> p = []) ->
  search_phone env provider req
  = ([], Normal (error_reply 400 "Phone number required"
                   "Please provide a phone number")).
Proof.
  intros H. unfold search_phone.
  destruct (params req !! lit "phone") as [p|]; [|done].
  now rewrite (H p).
Qed.

Lemma search_good req c q :
  fieldRoutesClient req = Some c -> query req !! lit "q" = Some q ->
  not_ (VStr q) || (length (trim q) <? 2) = false ->
  let o := Outcall c (lit "/customers/search")
             (<[lit "q" := VStr (trim q)]>
                (<[lit "limit" := VNum (Math_min (number_param num req "limit" 10) (Fin 50))]>
                   {[lit "offset" := VNum (Math_max (number_param num req "offset" 0) (Fin 0))]})) in
  let h := fun error => handleApiError env error "Failed to search customers" in
  search env provider num req
  = ([Requested o],
     match provider o with
     | Resolve r =>
         snd (try_catch (listing r "customers" [prop "query" (VStr (trim q))]) h)
     | Reject e => snd (h e)
     end).
Proof.
  intros Hc Hq Hv o h. unfold search. rewrite Hc, Hq, Hv.
  apply try_get; [intros; apply trace_listing | done].
Qed.

Lemma search_bad req :
  (forall q, query req !! lit "q" = Some q ->
             not_ (VStr q) || (length (trim q) <? 2) = true) ->
  search env provider num req
  = ([], Normal (error_reply 400 "Invalid search query"
                   "Search query must be at least 2 characters long")).
Proof.
  intros H. unfold search.
  destruct (query req !! lit "q") as [q|]; [|done].
  now rewrite (H q).
Qed.

Lemma customer_good req c id :
  fieldRoutesClient req = Some c -> params req !! lit "id" = Some id ->
  isValidCustomerId id = true ->
  let o := Outcall c (lit "/customers/" ++ id) ∅ in
  customer env provider req
  = ([Requested o],
     match provider o with
     | Resolve r =>
         Normal (Reply 200 (object [prop "success" (VBool true); prop "data" (data r)]))
     | Reject e => snd (not_found_or env "Failed to fetch customer" e)
     end).
Proof.
  intros Hc Hi Hv o. unfold customer. rewrite Hc, Hi, Hv.
  rewrite not_VStr by now apply isValidCustomerId_nonempty.
  cbn [orb negb]. rewrite try_get; [|done|apply trace_not_found_or].
  now destruct (provider _).
Qed.

Lemma services_good req c id :
  fieldRoutesClient req = Some c -> params req !! lit "id" = Some id ->
  isValidCustomerId id = true ->
  let o := Outcall c (lit "/customers/" ++ id ++ lit "/services")
             (<[lit "limit" := VNum (Math_min (number_param num req "limit" 20) (Fin 100))]>
                (<[lit "offset" := VNum (Math_max (number_param num req "offset" 0) (Fin 0))]>
                   {[lit "sort" := VStr (lit "date_desc")]})) in
  let h := not_found_or env "Failed to fetch service history" in
  services env provider num req
  = ([Requested o],
     match provider o with
     | Resolve r => snd (try_catch (listing r "services" []) h)
     | Reject e => snd (h e)
     end).
Proof.
  intros Hc Hi Hv o h. unfold services. rewrite Hc, Hi, Hv.
  rewrite not_VStr by now apply isValidCustomerId_nonempty.
  cbn [orb negb].
  apply try_get; [intros; apply trace_listing | apply trace_not_found_or].
Qed.

Lemma appointments_good req c id :
  fieldRoutesClient req = Some c -> params req !! lit "id" = Some id ->
  isValidCustomerId id = true ->
  let status := default (lit "all") (query req !! lit "status") in
  let ps : gmap jstr jsval :=
    <[lit "customer_id" := VStr id]>
      {[lit "limit" := VNum (Math_min (number_param num req "limit" 10) (Fin 50))]} in
  let o := Outcall c (lit "/appointments")
             (if bool_decide (status <> lit "all")
              then <[lit "status" := VStr status]> ps else ps) in
  let h := fun error => handleApiError env error "Failed to fetch appointments" in
  appointments env provider num req
  = ([Requested o],
     match provider o with
     | Resolve r => snd (try_catch (listing r "appointments" []) h)
     | Reject e => snd (h e)
     end).
Proof.
  intros Hc Hi Hv status ps o h. unfold appointments. rewrite Hc, Hi, Hv.
  rewrite not_VStr by now apply isValidCustomerId_nonempty.
  cbn [orb negb]. apply try_get; [intros; apply trace_listing | done].
Qed.

(** *** The credential-test route *)

Lemma try_created apiKey apiSecret (f : client -> Eff reply) h :
  let c := Client (FIELDROUTES_baseURL env) 10000 (Bearer apiKey) apiSecret
             (lit "application/json") in
  try_catch (let* c := createFieldRoutesClient env apiKey apiSecret in f c) h
  = (Created c :: trace (try_catch (f c) h), snd (try_catch (f c) h)).
Proof.
  intros c. unfold createFieldRoutesClient. cbn. fold c.
  now destruct (f c) as [t [a|e]].
Qed.

(** The [catch] of the credential-test route. *)
Lemma trace_test_catch e :
  trace (if status_is e 401 || status_is e 403
         then fail 401 "Invalid credentials" "The provided API credentials are invalid"
         else handleApiError env e "Failed to test credentials") = [].
Proof. now destruct (_ || _). Qed.

Lemma test_credentials_bad req :
  not_ (field (body req) "apiKey") || not_ (field (body req) "apiSecret") = true ->
  test_credentials env provider req
  = ([], Normal (error_reply 400 "Missing credentials" "API key and secret are required")).
Proof. intros H. unfold test_credentials. now rewrite H. Qed.

Lemma test_credentials_good req :
  not_ (field (body req) "apiKey") || not_ (field (body req) "apiSecret") = false ->
  let c := Client (FIELDROUTES_baseURL env) 10000 (Bearer (field (body req) "apiKey"))
             (field (body req) "apiSecret") (lit "application/json") in
  let testClient :=
    if truthy (field (body req) "baseUrl")
    then set_baseURL c (field (body req) "baseUrl") else c in
  let o := Outcall testClient (lit "/customers") {[lit "limit" := VNum (Fin 1)]} in
  test_credentials env provider req
  = ([Created c; Requested o],
     match provider o with
     | Resolve r =>
         Normal (Reply 200
                   (object [prop "success" (VBool true);
                            prop "message" (VStr (lit "Credentials are valid"));
                            prop "data" (object [prop "connected" (VBool true);
                                                 prop "baseUrl" (baseURL testClient)])]))
     | Reject e =>
         if status_is e 401 || status_is e 403
         then Normal (error_reply 401 "Invalid credentials"
                        "The provided API credentials are invalid")
         else snd (handleApiError env e "Failed to test credentials")
     end).
Proof.
  intros H c testClient o. unfold test_credentials. rewrite H.
  rewrite try_created. fold c testClient.
  rewrite try_get; [|done|apply trace_test_catch]. fold o. cbn [trace fst snd].
  destruct (provider o) as [r|e]; [reflexivity|].
  destruct (status_is e 401 || status_is e 403); reflexivity.
Qed.

(** *** Routes behind the credential validator *)

Lemma serve_credentialed r req :
  r <> TestCredentials ->
  serve env provider num r req
  = validateCredentials env req (handler env provider num r).
Proof. now destruct r. Qed.

(** A request without credentials is answered 401 by every such route. *)
Lemma serve_rejected r req :
  r <> TestCredentials -> ~ credentialed req ->
  serve env provider num r req
  = ([], Normal (error_reply 401 "Missing API credentials"
                   "API key and secret are required")).
Proof.
  intros Hr Hc. rewrite serve_credentialed by done.
  now apply validateCredentials_reject.
Qed.

(** With credentials the handler runs on the request with a client attached. *)
Lemma serve_admitted r req :
  r <> TestCredentials -> credentialed req ->
  exists c,
    fieldRoutesClient (attach req c) = Some c
    /\ serve env provider num r req
       = (Created c :: trace (handler env provider num r (attach req c)),
          snd (handler env provider num r (attach req c))).
Proof.
  intros Hr (k & s & Hk & Hs & Hk' & Hs'). rewrite serve_credentialed by done.
  exists (Client (FIELDROUTES_baseURL env) 10000 (Bearer (VStr k)) (VStr s)
            (lit "application/json")).
  split; [reflexivity|]. now apply validateCredentials_pass.
Qed.

Lemma credentialed_dec req : credentialed req \/ ~ credentialed req.
Proof.
  destruct (not_ (str_val (headers req !! lit "apiKey"))
            || not_ (str_val (headers req !! lit "apiSecret"))) eqn:E.
  - right. intros H. apply credentialed_check in H. congruence.
  - left. now apply credentialed_check.
Qed.

(** Whether the [id] parameter passes the handler's check. *)
Lemma id_cases req :
  (exists id, params req !! lit "id" = Some id /\ isValidCustomerId id = true)
  \/ (forall id, params req !! lit "id" = Some id -> isValidCustomerId id = false).
Proof.
  destruct (params req !! lit "id") as [id|]; [|now right].
  destruct (isValidCustomerId id) eqn:E; [left; eauto|right].
  now intros ? [= <-].
Qed.

Lemma in_created_cons o c t : In (Requested o) (Created c :: t) -> In (Requested o) t.
Proof. now intros [H|H]. Qed.

Lemma in_requested_singleton o o' : In (Requested o) [Requested o'] -> o' = o.
Proof. now intros [[= ->]|[]]. Qed.

(** A failed call of a run whose only call is [o'] is the failure of [o']. *)
Lemma call_failed_at (m : Eff reply) o' n :
  (forall o, In (Requested o) (trace m) -> o = o') ->
  call_failed provider m n ->
  exists e r, provider o' = Reject e /\ response e = Some r /\ status r = n.
Proof.
  intros Ho (o & e & r & Hin & Hp & Hr & Hs).
  apply Ho in Hin. subst o. eauto.
Qed.

(** *** Provider failures that the routes answer themselves *)

(** C3: when the provider call of the fetch-by-id or of the fetch-services
    route is rejected with HTTP status 404, the route replies 404 with
    exactly the customer-not-found body. *)
Theorem not_found_reply (r : route) (req : request) :
  r = Customer \/ r = Services ->
  call_failed provider (serve env provider num r req) 404 ->
  sent (serve env provider num r req)
  = Some (error_reply 404 "Customer not found" "No customer found with the provided ID").
Proof.
  intros Hr (o & e & resp & Hin & Hp & Hresp & Hst).
  assert (Hne : r <> TestCredentials) by (destruct Hr; now subst).
  destruct (credentialed_dec req) as [C|C];
    [|now rewrite serve_rejected in Hin].
  destruct (serve_admitted r req Hne C) as (c & Hc & E). rewrite E in *.
  apply in_created_cons in Hin. unfold sent. cbn [snd].
  assert (H404 : snd (not_found_or env
                        (match r with Customer => "Failed to fetch customer"
                                    | _ => "Failed to fetch service history" end) e)
                 = Normal (error_reply 404 "Customer not found"
                             "No customer found with the provided ID")).
  { unfold not_found_or, status_is. now rewrite Hresp, Hst. }
  destruct (id_cases (attach req c)) as [(id & Hid & Hv)|Hbad];
    destruct Hr; subst r; cbn [handler] in *.
  - rewrite (customer_good _ c id) in * by done.
    apply in_requested_singleton in Hin. cbn [snd]. rewrite Hin, Hp. now rewrite H404.
  - rewrite (services_good _ c id) in * by done.
    apply in_requested_singleton in Hin. cbn [snd]. rewrite Hin, Hp. now rewrite H404.
  - now rewrite customer_bad in Hin.
  - now rewrite services_bad in Hin.
Qed.

(** C8: when the provider call of the credential-test route is rejected with
    HTTP status 401 or 403, the route replies 401 with the
    invalid-credentials body. *)
Theorem invalid_credentials_reply (req : request) :
  call_failed provider (serve env provider num TestCredentials req) 401
  \/ call_failed provider (serve env provider num TestCredentials req) 403 ->
  sent (serve env provider num TestCredentials req)
  = Some (error_reply 401 "Invalid credentials" "The provided API credentials are invalid").
Proof.
  cbn [serve]. intros H.
  destruct (not_ (field (body req) "apiKey") || not_ (field (body req) "apiSecret"))
    eqn:Hb.
  { rewrite test_credentials_bad in H by done.
    now destruct H as [(o & ? & ? & [] & _)|(o & ? & ? & [] & _)]. }
  pose proof (test_credentials_good req Hb) as E. cbv zeta in E.
  set (o := Outcall _ _ _) in E. rewrite E in *. clear E.
  assert (exists e resp, provider o = Reject e /\ response e = Some resp
                         /\ (status resp = 401 \/ status resp = 403)%Z)
    as (e & resp & Hp & Hr & Hs).
  { destruct H as [H|H]; apply (call_failed_at _ o) in H;
      try (intros o' [?|Hin]; [done | now apply in_requested_singleton in Hin]);
      destruct H as (e & resp & ? & ? & ?); eauto 10. }
  unfold sent. cbn [snd]. rewrite Hp. unfold status_is. rewrite Hr.
  now destruct Hs as [-> | ->].
Qed.

(** C10: when the body of a credential-test request lacks [apiKey] or lacks
    [apiSecret], the route replies 400 with the missing-credentials body; no
    client is created and the provider is not called. *)
Theorem test_credentials_missing (req : request) :
  body req !! lit "apiKey" = None \/ body req !! lit "apiSecret" = None ->
  serve env provider num TestCredentials req
  = ([], Normal (error_reply 400 "Missing credentials" "API key and secret are required")).
Proof.
  intros H. cbn [serve]. apply test_credentials_bad. unfold field.
  destruct H as [-> | ->]; [done|]. apply orb_true_r.
Qed.

(** *** Paging *)



Lemma email_cases req :
  (exists e, params req !! lit "email" = Some e /\ isValidEmail e = true)
  \/ (forall e, params req !! lit "email" = Some e -> isValidEmail e = false).
Proof.
  destruct (params req !! lit "email") as [e|]; [|now right].
  destruct (isValidEmail e) eqn:E; [left; eauto|right].
  now intros ? [= <-].
Qed.

Lemma phone_cases req :
  (exists p, params req !! lit "phone" = Some p /\ p <> [])
  \/ (forall p, params req !! lit "phone" = Some p -> p = []).
Proof.
  destruct (params req !! lit "phone") as [[|c p]|]; [right|left|right]; eauto.
  - now intros ? [= <-].
  - done.
Qed.

Lemma query_cases req :
  (exists q, query req !! lit "q" = Some q
             /\ not_ (VStr q) || (length (trim q) <? 2) = false)
  \/ (forall q, query req !! lit "q" = Some q ->
                not_ (VStr q) || (length (trim q) <? 2) = true).
Proof.
  destruct (query req !! lit "q") as [q|]; [|now right].
  destruct (not_ (VStr q) || (length (trim q) <? 2)) eqn:E; [right|left; eauto].
  now intros ? [= <-].
Qed.

(** The only call of a handler run, when there is one. *)
Lemma handler_call r req c o :
  r <> TestCredentials -> fieldRoutesClient req = Some c ->
  In (Requested o) (trace (handler env provider num r req)) ->
  oc_client o = c
  /\ match r with
     | SearchEmail | SearchPhone =>
         out_limit o = Some (VNum (Fin 10)) /\ out_offset o = None
     | Search =>
         out_limit o = Some (VNum (Math_min (number_param num req "limit" 10) (Fin 50)))
         /\ out_offset o
            = Some (VNum (Math_max (number_param num req "offset" 0) (Fin 0)))
     | Services =>
         out_limit o = Some (VNum (Math_min (number_param num req "limit" 20) (Fin 100)))
         /\ out_offset o
            = Some (VNum (Math_max (number_param num req "offset" 0) (Fin 0)))
     | Appointments =>
         out_limit o = Some (VNum (Math_min (number_param num req "limit" 10) (Fin 50)))
         /\ out_offset o = None
     | Customer | TestCredentials => out_limit o = None /\ out_offset o = None
     end.
Proof.
  intros Hr Hc Hin. destruct r; cbn [handler] in Hin; [| | | | | |done].
  - destruct (email_cases req) as [(e & He & Hv)|Hbad];
      [|now rewrite search_email_bad in Hin].
    rewrite (search_email_good _ c e) in Hin by done.
    apply in_requested_singleton in Hin. now subst o.
  - destruct (phone_cases req) as [(p & Hp & Hv)|Hbad];
      [|now rewrite search_phone_bad in Hin].
    rewrite (search_phone_good _ c p) in Hin by done.
    apply in_requested_singleton in Hin. now subst o.
  - destruct (query_cases req) as [(q & Hq & Hv)|Hbad];
      [|now rewrite search_bad in Hin].
    rewrite (search_good _ c q) in Hin by done.
    apply in_requested_singleton in Hin. now subst o.
  - destruct (id_cases req) as [(id & Hid & Hv)|Hbad];
      [|now rewrite customer_bad in Hin].
    rewrite (customer_good _ c id) in Hin by done.
    apply in_requested_singleton in Hin. now subst o.
  - destruct (id_cases req) as [(id & Hid & Hv)|Hbad];
      [|now rewrite services_bad in Hin].
    rewrite (services_good _ c id) in Hin by done.
    apply in_requested_singleton in Hin. now subst o.
  - destruct (id_cases req) as [(id & Hid & Hv)|Hbad];
      [|now rewrite appointments_bad in Hin].
    rewrite (appointments_good _ c id) in Hin by done.
    apply in_requested_singleton in Hin. subst o.
    unfold out_limit, out_offset. cbn [oc_client oc_params].
    now case_bool_decide.
Qed.


(** *** Input validation on the routes *)

Lemma no_request_nil (a : completion reply) : no_request ([], a).
Proof. now intros o H. Qed.

(** A route whose handler refuses the input makes no call, and replies what
    the handler replies when the credentials pass. *)
Lemma serve_refused r req rep :
  r <> TestCredentials ->
  (forall c, handler env provider num r (attach req c) = ([], Normal rep)) ->
  no_request (serve env provider num r req)
  /\ (credentialed req -> sent (serve env provider num r req) = Some rep).
Proof.
  intros Hr Hh. destruct (credentialed_dec req) as [C|C].
  - destruct (serve_admitted r req Hr C) as (c & _ & E). rewrite E, Hh.
    split; [|done]. intros o [H|H]; [discriminate | done].
  - rewrite serve_rejected by done. split; [apply no_request_nil | done].
Qed.

(** C5, as amended: the email validator accepts exactly the strings made of
    a non-empty run of non-whitespace non-'@' characters, '@', such a run,
    '.', and such a run again (the last run excludes '@' too); the empty
    string is not one of them.  On an email that is absent or not of this
    shape the email-search route never calls the provider, and it replies
    400 when the request passes the credential validator. *)
Theorem email_search_validation (req : request) :
  (forall s, isValidEmail s = true <-> email_shape s)
  /\ ~ email_shape []
  /\ ((forall e, params req !! lit "email" = Some e -> ~ email_shape e) ->
      no_request (serve env provider num SearchEmail req)
      /\ (credentialed req ->
          sent (serve env provider num SearchEmail req)
          = Some (error_reply 400 "Invalid email address"
                    "Please provide a valid email address"))).
Proof.
  split; [apply isValidEmail_shape|]. split.
  { now rewrite <- isValidEmail_shape. }
  intros H. apply serve_refused; [done|]. intros c. cbn [handler].
  apply search_email_bad. intros e He.
  destruct (isValidEmail e) eqn:E; [|done].
  apply isValidEmail_shape in E. now apply H in He.
Qed.

(** The ids the claim rules out: a character outside [[A-Za-z0-9_-]], or no
    character at all, or a hundred and more. *)
Lemma isValidCustomerId_refuses id :
  (exists c, In c id /\ id_char c = false) \/ length id = 0 \/ 100 <= length id ->
  isValidCustomerId id = false.
Proof.
  intros H. destruct (isValidCustomerId id) eqn:E; [|done].
  apply isValidCustomerId_spec in E as [Hall Hlen].
  destruct H as [(c & Hin & Hc)|[H|H]]; [|lia|lia].
  rewrite forallb_forall in Hall. apply Hall in Hin. congruence.
Qed.

(** C6, as amended: the customer-id validator accepts exactly the strings of
    1 to 99 characters that are all ASCII letters, digits, hyphens or
    underscores.  On an id with another character, or of length 0, or of
    length 100 and more, the three identifier-scoped routes never call the
    provider, and they reply 400 when the request passes the credential
    validator. *)
Theorem customer_id_validation (r : route) (req : request) :
  (forall id, isValidCustomerId id = true <->
              forallb id_char id = true /\ 1 <= length id <= 99)
  /\ (r = Customer \/ r = Services \/ r = Appointments ->
      (forall id, params req !! lit "id" = Some id ->
          (exists c, In c id /\ id_char c = false)
          \/ length id = 0 \/ 100 <= length id) ->
      no_request (serve env provider num r req)
      /\ (credentialed req ->
          sent (serve env provider num r req)
          = Some (error_reply 400 "Invalid customer ID"
                    "Please provide a valid customer ID"))).
Proof.
  split; [apply isValidCustomerId_spec|]. intros Hr H.
  assert (Hbad : forall c id, params (attach req c) !! lit "id" = Some id ->
                              isValidCustomerId id = false).
  { intros c id Hid. now apply isValidCustomerId_refuses, H. }
  apply serve_refused; [destruct Hr as [->|[->| ->]]; done|]. intros c.
  destruct Hr as [->|[->| ->]]; cbn [handler].
  - apply customer_bad, Hbad.
  - apply services_bad, Hbad.
  - apply appointments_bad, Hbad.
Qed.

(** *** Reshaping the answer of a search *)

Lemma call_resolved_at (m : Eff reply) o' d :
  (forall o, In (Requested o) (trace m) -> o = o') ->
  call_resolved provider m d ->
  exists r, provider o' = Resolve r /\ data r = d.
Proof.
  intros Ho (o & r & Hin & Hp & Hd). apply Ho in Hin. subst o. eauto.
Qed.

Lemma call_resolved_created c (a : completion reply) d :
  ~ call_resolved provider ([Created c], a) d.
Proof. intros (o & r & [H|[]] & _). discriminate. Qed.

(** The resolved call of a run that created a client and made the one call
    [o'] is the call [o']. *)
Lemma call_resolved_only c o' (a a' : completion reply) d :
  call_resolved provider (Created c :: trace ([Requested o'], a), a') d ->
  exists r, provider o' = Resolve r /\ data r = d.
Proof.
  apply call_resolved_at. intros o [H|[H|[]]]; [discriminate | now injection H].
Qed.

Lemma listing_object resp k more m h :
  data resp = VObj m ->
  snd (try_catch (listing resp k more) h)
  = Normal (Reply 200
              (object ([prop "success" (VBool true);
                        prop "data" (or_ (field m k) (VArr []));
                        prop "total" (or_ (field m "total") (VNum (Fin 0)))]
                       ++ more))).
Proof. intros E. unfold listing, member. now rewrite E. Qed.

(** The three search routes answer a resolved call with a listing of the
    [customers] of its response. *)
Lemma search_resolved r req d :
  r = SearchEmail \/ r = SearchPhone \/ r = Search ->
  call_resolved provider (serve env provider num r req) d ->
  exists resp more h,
    data resp = d
    /\ snd (serve env provider num r req)
       = snd (try_catch (listing resp "customers" more) h).
Proof.
  intros Hr H.
  assert (Hne : r <> TestCredentials) by (destruct Hr as [->|[->| ->]]; done).
  destruct (credentialed_dec req) as [C|C].
  2:{ rewrite serve_rejected in H by done. now destruct H as (? & ? & [] & _). }
  destruct (serve_admitted r req Hne C) as (c & Hc & E). rewrite E in *. clear E.
  cbn [snd].
  destruct Hr as [->|[->| ->]]; cbn [handler] in *.
  - destruct (email_cases (attach req c)) as [(e & He & Hv)|Hbad].
    2:{ rewrite search_email_bad in H by done. destruct (call_resolved_created _ _ _ H). }
    rewrite (search_email_good _ c e) in * by done. cbn [snd].
    apply call_resolved_only in H as (resp & Hp & Hd). rewrite Hp. eauto 10.
  - destruct (phone_cases (attach req c)) as [(p & Hph & Hv)|Hbad].
    2:{ rewrite search_phone_bad in H by done. destruct (call_resolved_created _ _ _ H). }
    rewrite (search_phone_good _ c p) in * by done. cbn [snd].
    apply call_resolved_only in H as (resp & Hp & Hd). rewrite Hp. eauto 10.
  - destruct (query_cases (attach req c)) as [(q & Hq & Hv)|Hbad].
    2:{ rewrite search_bad in H by done. destruct (call_resolved_created _ _ _ H). }
    rewrite (search_good _ c q) in * by done. cbn [snd].
    apply call_resolved_only in H as (resp & Hp & Hd). rewrite Hp. eauto 10.
Qed.

(** C7, as amended: when the provider call of a search route resolves with
    an object that has a [customers] list and a numeric [total], the route
    replies 200 with [success: true], that list as [data] and that number as
    [total].  When the object has no [customers], [data] is the empty list;
    [total] is defaulted on its own, to 0 when the object has no [total]. *)
Theorem search_envelope (r : route) (req : request) (m : gmap jstr jsval) :
  r = SearchEmail \/ r = SearchPhone \/ r = Search ->
  call_resolved provider (serve env provider num r req) (VObj m) ->
  exists rep,
    sent (serve env provider num r req) = Some rep
    /\ code rep = 200%Z
    /\ json_field (payload rep) "success" = Some (VBool true)
    /\ (forall l z,
          m !! lit "customers" = Some (VArr l) ->
          m !! lit "total" = Some (VNum (Fin z)) ->
          json_field (payload rep) "data" = Some (VArr l)
          /\ json_field (payload rep) "total" = Some (VNum (Fin z)))
    /\ (m !! lit "customers" = None ->
        json_field (payload rep) "data" = Some (VArr []))
    /\ (m !! lit "total" = None ->
        json_field (payload rep) "total" = Some (VNum (Fin 0))).
Proof.
  intros Hr H.
  destruct (search_resolved r req _ Hr H) as (resp & more & h & Hd & E).
  unfold sent. rewrite E, (listing_object _ _ _ m) by done.
  eexists. split; [reflexivity|]. cbn [code payload].
  rewrite !json_field_object.
  cbn [app assoc prop String.eqb Ascii.eqb Bool.eqb]. unfold field.
  split; [done|]. split; [done|]. split; [|split].
  - intros l z -> ->. cbn. split; [done|].
    unfold or_. cbn. now destruct (z =? 0)%Z eqn:Ez; [apply Z.eqb_eq in Ez as ->|].
  - now intros ->.
  - now intros ->.
Qed.

(** *** Credential validator *)

(** The validator on an arbitrary header object, such as a test double
    builds: when the property [apiKey] or [apiSecret] is lacking or is the
    empty string, it replies 401 with the missing-credentials body and
    nothing else happens; when both properties have a non-empty value, a
    client bound to these two values is created and attached to the request,
    and the handler runs on that request. *)
Theorem validateCredentials_gate (req : request) (next : request -> Eff reply) :
  (headers req !! lit "apiKey" = None \/ headers req !! lit "apiSecret" = None
   \/ headers req !! lit "apiKey" = Some [] \/ headers req !! lit "apiSecret" = Some []
   -> validateCredentials env req next
      = ([], Normal (error_reply 401 "Missing API credentials"
                       "API key and secret are required")))
  /\ (forall k s,
        headers req !! lit "apiKey" = Some k -> headers req !! lit "apiSecret" = Some s ->
        k <> [] -> s <> [] ->
        exists c,
          Authorization c = Bearer (VStr k) /\ X_API_Secret c = VStr s
          /\ fieldRoutesClient (attach req c) = Some c
          /\ validateCredentials env req next
             = (Created c :: trace (next (attach req c)), snd (next (attach req c)))).
Proof.
  split.
  - intros H. apply validateCredentials_reject.
    intros (k & s & Hk & Hs & Hk' & Hs').
    destruct H as [H|[H|[H|H]]]; congruence.
  - intros k s Hk Hs Hk' Hs'.
    exists (Client (FIELDROUTES_baseURL env) 10000 (Bearer (VStr k)) (VStr s)
              (lit "application/json")).
    split; [done|]. split; [done|]. split; [done|].
    now apply validateCredentials_pass.
Qed.

(** *** Error normaliser *)

(** C2, as amended: the normaliser always replies, and calls nothing.  The
    status is the provider's when there is one other than zero, and 500
    otherwise.  The message is the provider's message field when that field
    is truthy, else the error's own message when it is not empty, else the
    default of the route.  The body has [error: "API Error"] and the message;
    a [details] entry is the provider's response body and appears in
    development mode only, so never in production mode. *)
Theorem handleApiError_normalises (error : js_error) (defaultMessage : string) :
  exists rep,
    handleApiError env error defaultMessage = ([], Normal rep)
    /\ (forall r, response error = Some r -> status r <> 0%Z -> code rep = status r)
    /\ (response error = None -> code rep = 500%Z)
    /\ (forall r, response error = Some r -> status r = 0%Z -> code rep = 500%Z)
    /\ (truthy (provider_message error) = true ->
        json_field (payload rep) "message" = Some (provider_message error))
    /\ (truthy (provider_message error) = false -> message error <> [] ->
        json_field (payload rep) "message" = Some (VStr (message error)))
    /\ (truthy (provider_message error) = false -> message error = [] ->
        json_field (payload rep) "message" = Some (VStr (lit defaultMessage)))
    /\ json_field (payload rep) "error" = Some (VStr (lit "API Error"))
    /\ (forall d, json_field (payload rep) "details" = Some d ->
        env !! lit "NODE_ENV" = Some (lit "development")
        /\ exists r, response error = Some r /\ data r = d)
    /\ (env !! lit "NODE_ENV" = Some (lit "production") ->
        json_field (payload rep) "details" = None).
Proof.
  eexists. split; [reflexivity|]. cbn [code payload].
  assert (Hm : opt_member (from_option data VUndefined (response error)) "message"
               = provider_message error).
  { unfold provider_message. now destruct (response error). }
  rewrite !json_field_object, Hm. cbn [assoc prop String.eqb Ascii.eqb Bool.eqb].
  split; [|split; [|split; [|split; [|split; [|split; [|split; [|split]]]]]]].
  - intros r -> Hr. cbn. now destruct (Z.eqb_spec (status r) 0).
  - now intros ->.
  - intros r -> Hr. cbn. now rewrite Hr.
  - intros Ht. unfold or_ at 2. rewrite Ht. unfold or_. rewrite Ht.
    now destruct (provider_message error).
  - intros Ht Hne. unfold or_ at 2. rewrite Ht. unfold or_.
    now rewrite (proj2 (truthy_str _) Hne).
  - intros Ht ->. unfold or_ at 2. now rewrite Ht.
  - reflexivity.
  - intros d. case_bool_decide; [|discriminate].
    destruct (response error) as [r|]; [|discriminate].
    cbn. destruct (data r) eqn:E; try discriminate; intros [= <-]; eauto.
  - intros Hp. rewrite bool_decide_eq_false_2; [done|].
    rewrite Hp. intros E. vm_compute in E. discriminate.
Qed.

(** *** The run of a route, whatever the route *)

Lemma on_error_handler r e d :
  r <> Customer -> r <> Services -> r <> TestCredentials -> d = default_message r ->
  handleApiError env e d = on_error env r e.
Proof. intros ? ? ? ->. now destruct r. Qed.

Lemma error_envelope_error_reply c error msg : error_envelope (error_reply c error msg).
Proof.
  unfold error_envelope, error_reply. cbn [payload]. rewrite !json_field_object.
  cbn. eauto.
Qed.

Lemma no_details_error_reply c error msg :
  json_field (payload (error_reply c error msg)) "details" = None.
Proof. unfold error_reply. cbn [payload]. now rewrite json_field_object. Qed.

Lemma or_defined a s : or_ a (VStr s) <> VUndefined.
Proof. unfold or_. destruct (truthy a) eqn:E; [|done]. now destruct a. Qed.

(** What the normaliser sends is an error envelope. *)
Lemma handleApiError_envelope e d :
  exists rep, handleApiError env e d = ([], Normal rep) /\ error_envelope rep.
Proof.
  eexists. split; [reflexivity|]. unfold error_envelope. cbn [payload].
  rewrite !json_field_object. cbn [assoc prop String.eqb Ascii.eqb Bool.eqb].
  split; [done|]. split; [eauto|].
  destruct (or_ _ (VStr (lit d))) eqn:E; eauto. now apply or_defined in E.
Qed.

Lemma on_error_cases r e :
  (exists c c' error msg,
     own_status r c /\ status_is e c = true
     /\ on_error env r e = ([], Normal (error_reply c' error msg)))
  \/ ((forall c, own_status r c -> status_is e c = false)
      /\ on_error env r e = handleApiError env e (default_message r)).
Proof.
  destruct r; cbn [on_error own_status default_message];
    try (right; split; [now intros ? []|reflexivity]).
  - unfold not_found_or. destruct (status_is e 404) eqn:E.
    + left. exists 404%Z. eexists _, _, _. eauto.
    + right. split; [now intros ? ->|reflexivity].
  - unfold not_found_or. destruct (status_is e 404) eqn:E.
    + left. exists 404%Z. eexists _, _, _. eauto.
    + right. split; [now intros ? ->|reflexivity].
  - destruct (status_is e 401) eqn:E1; [|destruct (status_is e 403) eqn:E3].
    + left. exists 401%Z. eexists _, _, _. eauto.
    + left. exists 403%Z. eexists _, _, _. eauto.
    + right. split; [now intros ? [-> | ->]|reflexivity].
Qed.

(** Every [catch] block sends an error envelope, and calls nothing. *)
Lemma on_error_envelope r e :
  exists rep, on_error env r e = ([], Normal rep) /\ error_envelope rep.
Proof.
  destruct (on_error_cases r e) as [(c & c' & error & msg & _ & _ & E)|[_ E]];
    rewrite E.
  - eexists. split; [reflexivity|]. apply error_envelope_error_reply.
  - apply handleApiError_envelope.
Qed.

Lemma trace_on_error r e : trace (on_error env r e) = [].
Proof. destruct (on_error_envelope r e) as (rep & -> & _). reflexivity. Qed.

(** The handler of a route behind the validator either refuses the input
    with a 400, or makes one call through the attached client and lets the
    answer decide: a rejected call goes to the [catch] block, a resolved one
    to a continuation that sends the fetched record or a listing. *)
Lemma handler_run r req c :
  r <> TestCredentials -> fieldRoutesClient req = Some c ->
  (exists error msg,
      handler env provider num r req = ([], Normal (error_reply 400 error msg)))
  \/ (exists o (k : upstream_response -> Eff reply),
        oc_client o = c
        /\ handler env provider num r req
           = ([Requested o],
              match provider o with
              | Resolve resp => snd (try_catch (k resp) (on_error env r))
              | Reject e => snd (on_error env r e)
              end)
        /\ forall resp,
             (r = Customer
              /\ k resp = json (object [prop "success" (VBool true);
                                        prop "data" (data resp)]))
             \/ (r <> Customer
                 /\ exists more,
                      k resp = listing resp (list_key r) more
                      /\ (more = [] \/ exists q, more = [prop "query" (VStr q)]))).
Proof.
  intros Hr Hc. destruct r; cbn [handler]; [| | | | | |done].
  - destruct (email_cases req) as [(e & He & Hv)|Hbad];
      [right|left; rewrite search_email_bad by done; eauto].
    rewrite (search_email_good _ c e) by done. eexists _, _.
    refine (conj _ (conj eq_refl _)); [reflexivity|].
    intros resp. right. split; [done|]. exists []. auto.
  - destruct (phone_cases req) as [(p & Hp & Hv)|Hbad];
      [right|left; rewrite search_phone_bad by done; eauto].
    rewrite (search_phone_good _ c p) by done. eexists _, _.
    refine (conj _ (conj eq_refl _)); [reflexivity|].
    intros resp. right. split; [done|]. exists []. auto.
  - destruct (query_cases req) as [(q & Hq & Hv)|Hbad];
      [right|left; rewrite search_bad by done; eauto].
    rewrite (search_good _ c q) by done. eexists _, _.
    refine (conj _ (conj eq_refl _)); [reflexivity|].
    intros resp. right. split; [done|]. eexists. split; [reflexivity|]. eauto.
  - destruct (id_cases req) as [(id & Hid & Hv)|Hbad];
      [right|left; rewrite customer_bad by done; eauto].
    rewrite (customer_good _ c id) by done.
    eexists _, (fun resp => json (object [prop "success" (VBool true);
                                           prop "data" (data resp)])).
    refine (conj _ (conj eq_refl _)); [reflexivity|]. intros resp. now left.
  - destruct (id_cases req) as [(id & Hid & Hv)|Hbad];
      [right|left; rewrite services_bad by done; eauto].
    rewrite (services_good _ c id) by done. eexists _, _.
    refine (conj _ (conj eq_refl _)); [reflexivity|].
    intros resp. right. split; [done|]. exists []. auto.
  - destruct (id_cases req) as [(id & Hid & Hv)|Hbad];
      [right|left; rewrite appointments_bad by done; eauto].
    rewrite (appointments_good _ c id) by done. eexists _, _.
    refine (conj _ (conj eq_refl _)); [reflexivity|].
    intros resp. right. split; [done|]. exists []. auto.
Qed.

Lemma listing_nullish resp key more h :
  data resp = VNull \/ data resp = VUndefined ->
  exists e, response e = None /\ message e <> []
            /\ snd (try_catch (listing resp key more) h) = snd (h e).
Proof.
  intros [E|E]; unfold listing, member; rewrite E; eexists;
    (split; [|split; [|reflexivity]]); [reflexivity | now vm_compute ..].
Qed.

Lemma listing_defined resp key more h :
  data resp <> VNull -> data resp <> VUndefined ->
  snd (try_catch (listing resp key more) h)
  = Normal (Reply 200
              (object ([prop "success" (VBool true);
                        prop "data" (or_ (opt_member (data resp) key) (VArr []));
                        prop "total" (or_ (opt_member (data resp) "total") (VNum (Fin 0)))]
                       ++ more))).
Proof. intros H1 H2. unfold listing, member. now destruct (data resp). Qed.

Lemma success_envelope_listing items total more :
  more = [] \/ (exists q, more = [prop "query" (VStr q)]) ->
  success_envelope
    (Reply 200 (object ([prop "success" (VBool true); prop "data" items;
                         prop "total" total] ++ more))).
Proof.
  intros H. unfold success_envelope. cbn [code payload]. rewrite !json_field_object.
  destruct H as [->|(q & ->)]; cbn; auto.
Qed.

(** A request with credentials reaches the handler with the client made of
    the two header values. *)
Lemma serve_admitted_with r req :
  r <> TestCredentials -> credentialed req ->
  exists k s,
    headers req !! lit "apiKey" = Some k /\ headers req !! lit "apiSecret" = Some s
    /\ let c := Client (FIELDROUTES_baseURL env) 10000 (Bearer (VStr k)) (VStr s)
                  (lit "application/json") in
       serve env provider num r req
       = (Created c :: trace (handler env provider num r (attach req c)),
          snd (handler env provider num r (attach req c))).
Proof.
  intros Hr (k & s & Hk & Hs & Hk' & Hs'). exists k, s.
  split; [done|]. split; [done|]. rewrite serve_credentialed by done.
  now apply validateCredentials_pass.
Qed.

(** The three ways a request can go: refused before a client exists,
    refused by the handler, or one call whose answer decides. *)
Lemma serve_run r req :
  (exists n error msg,
      serve env provider num r req = ([], Normal (error_reply n error msg)))
  \/ (exists c error msg,
        serve env provider num r req = ([Created c], Normal (error_reply 400 error msg)))
  \/ (exists c o (k : upstream_response -> Eff reply),
        serve env provider num r req
        = ([Created c; Requested o],
           match provider o with
           | Resolve resp => snd (try_catch (k resp) (on_error env r))
           | Reject e => snd (on_error env r e)
           end)
        /\ (timeout c = 10000%Z /\ timeout (oc_client o) = 10000%Z
            /\ Authorization (oc_client o) = Authorization c
            /\ X_API_Secret (oc_client o) = X_API_Secret c
            /\ (r <> TestCredentials -> oc_client o = c))
        /\ forall resp,
             ((r = Customer \/ r = TestCredentials)
              /\ exists b, k resp = json b /\ success_envelope (Reply 200 b))
             \/ (r <> Customer /\ r <> TestCredentials
                 /\ exists more,
                      k resp = listing resp (list_key r) more
                      /\ (more = [] \/ exists q, more = [prop "query" (VStr q)]))).
Proof.
  assert (r = TestCredentials \/ r <> TestCredentials) as [->|Hr]
    by (destruct r; (now left) || (now right)).
  - cbn [serve].
    destruct (not_ (field (body req) "apiKey") || not_ (field (body req) "apiSecret"))
      eqn:Hb.
    + left. rewrite test_credentials_bad by done. eauto.
    + right. right. rewrite test_credentials_good by done.
      eexists _, _, (fun _ => json _).
      split; [|split].
      * f_equal. destruct (provider _) as [resp|e]; [reflexivity|].
        cbn [on_error]. now destruct (status_is e 401 || status_is e 403).
      * cbn. now destruct (truthy (field (body req) "baseUrl")).
      * intros resp. left. split; [now right|]. eexists. split; [reflexivity|].
        unfold success_envelope. cbn [code payload]. now rewrite !json_field_object.
  - destruct (credentialed_dec req) as [C|C];
      [|left; rewrite serve_rejected by done; eauto].
    destruct (serve_admitted_with r req Hr C) as (ks & ss & _ & _ & E).
    cbv zeta in E. rewrite E. clear E.
    set (c := Client _ _ _ _ _).
    destruct (handler_run r (attach req c) c Hr eq_refl)
      as [(error & msg & ->)|(o & k & Ho & -> & Hk)].
    + right. left. eauto.
    + right. right. exists c, o, k. split; [reflexivity|]. split.
      * rewrite Ho. repeat split. 
      * intros resp. destruct (Hk resp) as [[-> ->]|(Hc & more & -> & Hm)].
        -- left. split; [now left|]. eexists. split; [reflexivity|].
           unfold success_envelope. cbn [code payload].
           now rewrite !json_field_object.
        -- right. eauto 10.
Qed.

Lemma FIELDROUTES_baseURL_configured : FIELDROUTES_baseURL env = VStr (configured_url env).
Proof.
  unfold FIELDROUTES_baseURL, configured_url.
  now destruct (env !! lit "FIELDROUTES_API_URL") as [[|c u]|].
Qed.

Lemma handleApiError_details e d rep :
  handleApiError env e d = ([], Normal rep) ->
  env !! lit "NODE_ENV" <> Some (lit "development") ->
  json_field (payload rep) "details" = None.
Proof.
  intros [= <-] Hdev. cbn [payload]. rewrite json_field_object.
  cbn [assoc prop String.eqb Ascii.eqb Bool.eqb].
  now rewrite bool_decide_eq_false_2.
Qed.

Lemma on_error_details r e rep :
  on_error env r e = ([], Normal rep) ->
  env !! lit "NODE_ENV" <> Some (lit "development") ->
  json_field (payload rep) "details" = None.
Proof.
  destruct (on_error_cases r e) as [(c & c' & error & msg & _ & _ & E)|[_ E]];
    rewrite E.
  - intros [= <-] _. apply no_details_error_reply.
  - apply handleApiError_details.
Qed.

(** Every run ends in a reply: a success envelope after a resolved call, or
    an error envelope, which has [details] in development mode only. *)
Lemma serve_outcome r req :
  exists rep,
    snd (serve env provider num r req) = Normal rep
    /\ ((success_envelope rep
         /\ exists o resp,
              In (Requested o) (trace (serve env provider num r req))
              /\ provider o = Resolve resp)
        \/ (error_envelope rep
            /\ (env !! lit "NODE_ENV" <> Some (lit "development") ->
                json_field (payload rep) "details" = None))).
Proof.
  assert (Herr : forall e, exists rep,
             snd (on_error env r e) = Normal rep
             /\ error_envelope rep
             /\ (env !! lit "NODE_ENV" <> Some (lit "development") ->
                 json_field (payload rep) "details" = None)).
  { intros e. destruct (on_error_envelope r e) as (rep & E & He).
    exists rep. rewrite E. split; [done|]. split; [done|].
    now apply (on_error_details r e). }
  destruct (serve_run r req)
    as [(n & error & msg & ->)|[(c & error & msg & ->)|(c & o & k & -> & _ & Hk)]].
  - eexists. split; [reflexivity|]. right.
    split; [apply error_envelope_error_reply|]. intros _. apply no_details_error_reply.
  - eexists. split; [reflexivity|]. right.
    split; [apply error_envelope_error_reply|]. intros _. apply no_details_error_reply.
  - cbn [snd trace fst]. destruct (provider o) as [resp|e] eqn:Hp.
    2:{ destruct (Herr e) as (rep & E & H). exists rep. split; [done|]. now right. }
    destruct (Hk resp) as [(_ & b & -> & Hb)|(_ & _ & more & -> & Hm)].
    + eexists. split; [reflexivity|]. left. split; [done|].
      exists o, resp. split; [|done]. right. now left.
    + assert (data resp = VNull \/ data resp = VUndefined
              \/ (data resp <> VNull /\ data resp <> VUndefined)) as [N|[N|[N1 N2]]]
        by (destruct (data resp); auto).
      * destruct (listing_nullish resp (list_key r) more (on_error env r))
          as (e & _ & _ & ->); [auto|].
        destruct (Herr e) as (rep & E & H). exists rep. split; [done|]. now right.
      * destruct (listing_nullish resp (list_key r) more (on_error env r))
          as (e & _ & _ & ->); [auto|].
        destruct (Herr e) as (rep & E & H). exists rep. split; [done|]. now right.
      * rewrite listing_defined by done. eexists. split; [reflexivity|]. left.
        split; [now apply success_envelope_listing|].
        exists o, resp. split; [|done]. right. now left.
Qed.

(** *** What every route guarantees *)

(** X1: a request leads to at most one client and at most one call to the
    provider, the call after the client, with the client's credentials and
    the timeout of 10 seconds: the routes neither retry nor fan out. *)
Theorem one_call_per_request (r : route) (req : request) :
  trace (serve env provider num r req) = []
  \/ (exists c, trace (serve env provider num r req) = [Created c])
  \/ (exists c o,
        trace (serve env provider num r req) = [Created c; Requested o]
        /\ timeout (oc_client o) = 10000%Z
        /\ Authorization (oc_client o) = Authorization c
        /\ X_API_Secret (oc_client o) = X_API_Secret c).
Proof.
  destruct (serve_run r req)
    as [(n & error & msg & ->)|[(c & error & msg & ->)|(c & o & k & -> & H & _)]].
  - now left.
  - right. left. eauto.
  - right. right. exists c, o. split; [reflexivity|]. tauto.
Qed.

(** X2: a call that a customer-data route sends goes through a client made
    of the two credential headers of the request, both non-empty, with the
    configured base URL (the environment's, or the default when that is
    unset or empty), the JSON content type and the timeout of 10 seconds. *)
Theorem call_carries_header_credentials (r : route) (req : request) (o : outcall) :
  r <> TestCredentials ->
  In (Requested o) (trace (serve env provider num r req)) ->
  exists k s,
    headers req !! lit "apiKey" = Some k /\ headers req !! lit "apiSecret" = Some s
    /\ k <> [] /\ s <> []
    /\ oc_client o
       = Client (VStr (configured_url env)) 10000 (Bearer (VStr k)) (VStr s)
           (lit "application/json").
Proof.
  intros Hr Hin.
  destruct (credentialed_dec req) as [C|C];
    [|now rewrite serve_rejected in Hin].
  destruct (serve_admitted_with r req Hr C) as (k & s & Hk & Hs & E).
  cbv zeta in E. rewrite E in Hin. clear E. apply in_created_cons in Hin.
  apply handler_call with (c := Client (FIELDROUTES_baseURL env) 10000 (Bearer (VStr k))
                                   (VStr s) (lit "application/json")) in Hin
    as [Ho _]; [|done|done].
  destruct C as (k' & s' & Hk' & Hs' & ? & ?).
  exists k, s. rewrite <- FIELDROUTES_baseURL_configured.
  repeat split; congruence.
Qed.

(** X3: every request to every route is answered, and the answer is one of
    the two envelopes: status 200 with [success: true] and no error fields,
    or an [error] string with a [message] and no [success]. *)
Theorem always_replies (r : route) (req : request) :
  exists rep,
    sent (serve env provider num r req) = Some rep
    /\ (success_envelope rep \/ error_envelope rep).
Proof.
  destruct (serve_outcome r req) as (rep & E & H).
  exists rep. unfold sent. rewrite E. split; [done|]. tauto.
Qed.

(** X4: a reply with [success: true] has status 200 and is sent only after a
    call to the provider that resolved. *)
Theorem success_needs_resolved_call (r : route) (req : request) (rep : reply) :
  sent (serve env provider num r req) = Some rep ->
  json_field (payload rep) "success" = Some (VBool true) ->
  code rep = 200%Z
  /\ exists o resp,
       In (Requested o) (trace (serve env provider num r req))
       /\ provider o = Resolve resp.
Proof.
  intros Hs Hok. destruct (serve_outcome r req) as (rep' & E & H).
  unfold sent in Hs. rewrite E in Hs. injection Hs as ->.
  destruct H as [[(Hc & _) Hr]|[(Hn & _) _]]; [done|congruence].
Qed.

(** X5: outside development mode no reply of any route has [details]: the
    raw body of the provider is never passed on. *)
Theorem details_only_in_development (r : route) (req : request) (rep : reply) :
  sent (serve env provider num r req) = Some rep ->
  env !! lit "NODE_ENV" <> Some (lit "development") ->
  json_field (payload rep) "details" = None.
Proof.
  intros Hs Hdev. destruct (serve_outcome r req) as (rep' & E & H).
  unfold sent in Hs. rewrite E in Hs. injection Hs as ->.
  destruct H as [[(_ & _ & _ & Hd) _]|[_ Hd]]; auto.
Qed.

(** *** Failures of the provider call *)

(** The only call of a run decides it. *)
Lemma rejected_outcome r req e :
  call_rejected provider (serve env provider num r req) e ->
  snd (serve env provider num r req) = snd (on_error env r e).
Proof.
  intros (o' & Hin & Hp).
  destruct (serve_run r req)
    as [(n & error & msg & E)|[(c & error & msg & E)|(c & o & k & E & _)]];
    rewrite E in *; cbn [trace fst snd] in *.
  - done.
  - now destruct Hin as [?|[]].
  - destruct Hin as [?|[[= ->]|[]]]; [done|]. now rewrite Hp.
Qed.

Lemma resolved_listing r req resp :
  r <> Customer -> r <> TestCredentials ->
  (exists o, In (Requested o) (trace (serve env provider num r req))
             /\ provider o = Resolve resp) ->
  exists more,
    snd (serve env provider num r req)
    = snd (try_catch (listing resp (list_key r) more) (on_error env r))
    /\ (more = [] \/ exists q, more = [prop "query" (VStr q)]).
Proof.
  intros Hc Ht (o' & Hin & Hp).
  destruct (serve_run r req)
    as [(n & error & msg & E)|[(c & error & msg & E)|(c & o & k & E & _ & Hk)]];
    rewrite E in *; cbn [trace fst snd] in *.
  - done.
  - now destruct Hin as [?|[]].
  - destruct Hin as [?|[[= ->]|[]]]; [done|]. rewrite Hp.
    destruct (Hk resp) as [([?|?] & _)|(_ & _ & more & -> & Hm)]; [done|done|].
    eauto.
Qed.

Lemma handleApiError_mirror e d :
  exists rep,
    handleApiError env e d = ([], Normal rep)
    /\ code rep = or_num (status <$> response e) 500
    /\ json_field (payload rep) "error" = Some (VStr (lit "API Error"))
    /\ (response e = None -> message e <> [] ->
        json_field (payload rep) "message" = Some (VStr (message e)))
    /\ (response e = None -> message e = [] ->
        json_field (payload rep) "message" = Some (VStr (lit d))).
Proof.
  eexists. split; [reflexivity|]. cbn [code payload].
  rewrite !json_field_object. cbn [assoc prop String.eqb Ascii.eqb Bool.eqb].
  split; [done|]. split; [done|]. split.
  - intros -> Hm. cbn. unfold or_. cbn.
    now rewrite bool_decide_eq_false_2.
  - intros -> ->. reflexivity.
Qed.

(** X6: a provider failure with an HTTP status is mirrored: unless the route
    answers that status itself (404 on fetch-by-id and fetch-services, 401
    and 403 on the credential test) and unless the status is 0, the reply
    has the provider's status and [error: "API Error"].  So a provider 404
    on the appointments route is not turned into "Customer not found". *)
Theorem provider_status_mirrored (r : route) (req : request) (n : Z) :
  call_failed provider (serve env provider num r req) n ->
  n <> 0%Z -> ~ own_status r n ->
  exists rep,
    sent (serve env provider num r req) = Some rep
    /\ code rep = n
    /\ json_field (payload rep) "error" = Some (VStr (lit "API Error")).
Proof.
  intros (o & e & resp & Hin & Hp & Hresp & Hst) Hn Hown.
  unfold sent. rewrite (rejected_outcome r req e) by (exists o; auto).
  destruct (on_error_cases r e) as [(c & c' & error & msg & Hc & Hs & E)|[_ E]].
  - exfalso. apply Hown. unfold status_is in Hs. rewrite Hresp in Hs.
    apply Z.eqb_eq in Hs. congruence.
  - rewrite E. destruct (handleApiError_mirror e (default_message r))
      as (rep & -> & Hcode & Herr & _).
    exists rep. split; [done|]. split; [|done].
    rewrite Hcode, Hresp. cbn. subst n. now destruct (Z.eqb_spec (status resp) 0).
Qed.

(** X7: a call that fails without a response (a timeout, no connection) is
    answered 500 with [error: "API Error"]; the message is the error's own,
    or the default message of the route when the error has none. *)
Theorem network_failure_reply (r : route) (req : request) (e : js_error) :
  call_rejected provider (serve env provider num r req) e ->
  response e = None ->
  exists rep,
    sent (serve env provider num r req) = Some rep
    /\ code rep = 500%Z
    /\ json_field (payload rep) "error" = Some (VStr (lit "API Error"))
    /\ (message e <> [] ->
        json_field (payload rep) "message" = Some (VStr (message e)))
    /\ (message e = [] ->
        json_field (payload rep) "message" = Some (VStr (lit (default_message r)))).
Proof.
  intros Hrej Hresp. unfold sent. rewrite (rejected_outcome r req e) by done.
  destruct (on_error_cases r e) as [(c & c' & error & msg & Hc & Hs & E)|[_ E]].
  - unfold status_is in Hs. now rewrite Hresp in Hs.
  - rewrite E. destruct (handleApiError_mirror e (default_message r))
      as (rep & -> & Hcode & Herr & Hm1 & Hm2).
    exists rep. split; [done|]. rewrite Hcode, Hresp. auto.
Qed.

(** X8: when the provider call of a listing route resolves with the body
    [null], reading the list off it throws, and the route answers 500 with
    [error: "API Error"]. *)
Theorem null_body_reply (r : route) (req : request) :
  r <> Customer -> r <> TestCredentials ->
  call_resolved provider (serve env provider num r req) VNull ->
  exists rep,
    sent (serve env provider num r req) = Some rep
    /\ code rep = 500%Z
    /\ json_field (payload rep) "error" = Some (VStr (lit "API Error")).
Proof.
  intros Hc Ht (o & resp & Hin & Hp & Hd).
  destruct (resolved_listing r req resp Hc Ht) as (more & E & _); [eauto|].
  unfold sent. rewrite E.
  destruct (listing_nullish resp (list_key r) more (on_error env r))
    as (e & Hresp & _ & ->); [auto|].
  destruct (on_error_cases r e) as [(c & c' & error & msg & _ & Hs & _)|[_ ->]].
  - unfold status_is in Hs. now rewrite Hresp in Hs.
  - destruct (handleApiError_mirror e (default_message r))
      as (rep & -> & Hcode & Herr & _).
    exists rep. split; [done|]. now rewrite Hcode, Hresp.
Qed.

(** *** Answers of the identifier-scoped routes *)

(** X9: the fetch-by-id route passes the body of a resolved call on as it
    is: the reply is 200 with exactly [{ success: true, data: body }]. *)
Theorem customer_passthrough (req : request) (d : jsval) :
  call_resolved provider (serve env provider num Customer req) d ->
  sent (serve env provider num Customer req)
  = Some (Reply 200 (object [prop "success" (VBool true); prop "data" d])).
Proof.
  intros H.
  destruct (credentialed_dec req) as [C|C].
  2:{ rewrite serve_rejected in H by done. now destruct H as (? & ? & [] & _). }
  destruct (serve_admitted Customer req) as (c & Hc & E); [done|done|].
  rewrite E in *. clear E. cbn [handler] in *.
  destruct (id_cases (attach req c)) as [(id & Hid & Hv)|Hbad].
  2:{ rewrite customer_bad in H by done. destruct (call_resolved_created _ _ _ H). }
  rewrite (customer_good _ c id) in * by done.
  apply call_resolved_only in H as (resp & Hp & Hd).
  unfold sent. cbn [snd]. now rewrite Hp, Hd.
Qed.

(** X10: when the provider call of the fetch-services or fetch-appointments
    route resolves with an object, the route replies 200 with the list under
    [services], respectively [appointments], as [data], the empty list when
    that property is absent or [null], and with the numeric [total], 0 when
    there is none. *)
Theorem history_envelope (r : route) (req : request) (m : gmap jstr jsval) :
  r = Services \/ r = Appointments ->
  call_resolved provider (serve env provider num r req) (VObj m) ->
  exists rep,
    sent (serve env provider num r req) = Some rep
    /\ success_envelope rep
    /\ (forall l, m !! lit (list_key r) = Some (VArr l) ->
          json_field (payload rep) "data" = Some (VArr l))
    /\ (m !! lit (list_key r) = None \/ m !! lit (list_key r) = Some VNull ->
        json_field (payload rep) "data" = Some (VArr []))
    /\ (forall z, m !! lit "total" = Some (VNum (Fin z)) ->
          json_field (payload rep) "total" = Some (VNum (Fin z)))
    /\ (m !! lit "total" = None ->
        json_field (payload rep) "total" = Some (VNum (Fin 0))).
Proof.
  intros Hr (o & resp & Hin & Hp & Hd).
  destruct (resolved_listing r req resp) as (more & E & Hm);
    [destruct Hr as [-> | ->]; done | destruct Hr as [-> | ->]; done | eauto |].
  unfold sent. rewrite E, listing_defined by (rewrite Hd; done).
  eexists. split; [reflexivity|]. split; [now apply success_envelope_listing|].
  cbn [payload]. rewrite !json_field_object.
  cbn [app assoc prop String.eqb Ascii.eqb Bool.eqb].
  rewrite Hd. cbn [opt_member]. unfold field.
  split; [|split; [|split]].
  - now intros l ->.
  - now intros [-> | ->].
  - intros z ->. cbn. unfold or_. cbn.
    now destruct (z =? 0)%Z eqn:Ez; [apply Z.eqb_eq in Ez as ->|].
  - now intros ->.
Qed.

(** *** The calls of the search routes *)

Lemma credentialed_run r req :
  r <> TestCredentials -> credentialed req ->
  exists c,
    serve env provider num r req
    = (Created c :: trace (handler env provider num r (attach req c)),
       snd (handler env provider num r (attach req c)))
    /\ fieldRoutesClient (attach req c) = Some c.
Proof.
  intros Hr C. destruct (serve_admitted r req Hr C) as (c & Hc & E). eauto.
Qed.

(** X11: a call that the phone-search route sends is made for a non-empty
    phone parameter: it is [GET /customers] with the digits of that
    parameter, which may be none, and limit 10. *)
Theorem phone_call_shape (req : request) (o : outcall) :
  In (Requested o) (trace (serve env provider num SearchPhone req)) ->
  exists p,
    params req !! lit "phone" = Some p /\ p <> []
    /\ oc_path o = lit "/customers"
    /\ oc_params o
       = <[lit "phone" := VStr (List.filter is_digit p)]> {[lit "limit" := VNum (Fin 10)]}.
Proof.
  intros Hin.
  destruct (credentialed_dec req) as [C|C];
    [|now rewrite serve_rejected in Hin].
  destruct (credentialed_run SearchPhone req) as (c & E & Hc); [done|done|].
  rewrite E in Hin. apply in_created_cons in Hin. cbn [handler] in Hin.
  destruct (phone_cases (attach req c)) as [(p & Hp & Hne)|Hbad];
    [|now rewrite search_phone_bad in Hin].
  rewrite (search_phone_good _ c p) in Hin by done.
  apply in_requested_singleton in Hin. subst o. exists p.
  cbn [oc_path oc_params]. now rewrite cleanPhone_filter.
Qed.

(** X12: when the phone parameter is absent or empty, the phone-search route
    never calls the provider, and replies 400 "Phone number required" when
    the request passes the credential validator. *)
Theorem phone_required (req : request) :
  (forall p, params req !! lit "phone" = Some p -> p = []) ->
  no_request (serve env provider num SearchPhone req)
  /\ (credentialed req ->
      sent (serve env provider num SearchPhone req)
      = Some (error_reply 400 "Phone number required" "Please provide a phone number")).
Proof.
  intros H. apply serve_refused; [done|]. intros c. cbn [handler].
  now apply search_phone_bad.
Qed.

(** X13: a call that the email-search route sends is made for an email that
    the validator accepts: it is [GET /customers] with the email as it was
    given and limit 10. *)
Theorem email_call_shape (req : request) (o : outcall) :
  In (Requested o) (trace (serve env provider num SearchEmail req)) ->
  exists e,
    params req !! lit "email" = Some e /\ isValidEmail e = true
    /\ oc_path o = lit "/customers"
    /\ oc_params o = <[lit "email" := VStr e]> {[lit "limit" := VNum (Fin 10)]}.
Proof.
  intros Hin.
  destruct (credentialed_dec req) as [C|C];
    [|now rewrite serve_rejected in Hin].
  destruct (credentialed_run SearchEmail req) as (c & E & Hc); [done|done|].
  rewrite E in Hin. apply in_created_cons in Hin. cbn [handler] in Hin.
  destruct (email_cases (attach req c)) as [(e & He & Hv)|Hbad];
    [|now rewrite search_email_bad in Hin].
  rewrite (search_email_good _ c e) in Hin by done.
  apply in_requested_singleton in Hin. subst o. now exists e.
Qed.

Lemma query_check q :
  not_ (VStr q) || (length (trim q) <? 2) = (length (trim q) <? 2).
Proof.
  destruct q as [|c q]; [reflexivity|]. now rewrite not_VStr.
Qed.

(** X14: when the query [q] is absent or has fewer than 2 characters once
    trimmed, the free-text search never calls the provider, and replies 400
    "Invalid search query" when the request passes the credential
    validator. *)
Theorem search_query_refused (req : request) :
  (forall q, query req !! lit "q" = Some q -> length (trim q) < 2) ->
  no_request (serve env provider num Search req)
  /\ (credentialed req ->
      sent (serve env provider num Search req)
      = Some (error_reply 400 "Invalid search query"
                "Search query must be at least 2 characters long")).
Proof.
  intros H. apply serve_refused; [done|]. intros c. cbn [handler].
  apply search_bad. intros q Hq. rewrite query_check.
  apply Nat.ltb_lt. now apply H.
Qed.

(** X15: a call that the free-text search sends is made for a query of at
    least 2 characters once trimmed: it is [GET /customers/search] whose [q]
    is the trimmed query, which neither starts nor ends with white space. *)
Theorem search_call_shape (req : request) (o : outcall) :
  In (Requested o) (trace (serve env provider num Search req)) ->
  exists q,
    query req !! lit "q" = Some q /\ 2 <= length (trim q)
    /\ oc_path o = lit "/customers/search"
    /\ oc_params o !! lit "q" = Some (VStr (trim q))
    /\ (forall x t, trim q = x :: t -> is_space x = false)
    /\ (forall x t, trim q = t ++ [x] -> is_space x = false).
Proof.
  intros Hin.
  destruct (credentialed_dec req) as [C|C];
    [|now rewrite serve_rejected in Hin].
  destruct (credentialed_run Search req) as (c & E & Hc); [done|done|].
  rewrite E in Hin. apply in_created_cons in Hin. cbn [handler] in Hin.
  destruct (query_cases (attach req c)) as [(q & Hq & Hv)|Hbad];
    [|now rewrite search_bad in Hin].
  rewrite (search_good _ c q) in Hin by done.
  apply in_requested_singleton in Hin. subst o. exists q.
  rewrite query_check in Hv. apply Nat.ltb_ge in Hv.
  cbn [oc_path oc_params].
  split; [done|]. split; [done|]. split; [done|]. split; [done|].
  split; [apply trim_head | apply trim_last].
Qed.

(** X16: the reply to a free-text search whose call resolved with an object
    echoes the trimmed query under [query]. *)
Theorem search_echoes_query (req : request) (m : gmap jstr jsval) :
  call_resolved provider (serve env provider num Search req) (VObj m) ->
  exists q rep,
    query req !! lit "q" = Some q
    /\ sent (serve env provider num Search req) = Some rep
    /\ json_field (payload rep) "query" = Some (VStr (trim q)).
Proof.
  intros H.
  destruct (credentialed_dec req) as [C|C].
  2:{ rewrite serve_rejected in H by done. now destruct H as (? & ? & [] & _). }
  destruct (credentialed_run Search req) as (c & E & Hc); [done|done|].
  rewrite E in *. clear E. cbn [handler] in *.
  destruct (query_cases (attach req c)) as [(q & Hq & Hv)|Hbad].
  2:{ rewrite search_bad in H by done. destruct (call_resolved_created _ _ _ H). }
  rewrite (search_good _ c q) in * by done.
  apply call_resolved_only in H as (resp & Hp & Hd).
  unfold sent. cbn [snd]. rewrite Hp, (listing_object _ _ _ m) by done.
  exists q. eexists. split; [done|]. split; [reflexivity|].
  cbn [payload]. now rewrite json_field_object.
Qed.

(** *** The calls of the identifier-scoped routes *)

Lemma id_char_range c : id_char c = true -> (45 <= c <= 122)%N.
Proof.
  unfold id_char.
  change (ch "a") with 97%N. change (ch "z") with 122%N.
  change (ch "A") with 65%N. change (ch "Z") with 90%N.
  change (ch "0") with 48%N. change (ch "9") with 57%N.
  change (ch "-") with 45%N. change (ch "_") with 95%N.
  rewrite !orb_true_iff, !andb_true_iff, !N.leb_le, !N.eqb_eq. lia.
Qed.

Lemma is_space_range c : is_space c = true -> (c <= 32 \/ 160 <= c)%N.
Proof.
  unfold is_space. cbn [existsb].
  rewrite !orb_true_iff, !andb_true_iff, !N.leb_le, !N.eqb_eq. lia.
Qed.

Lemma id_char_safe id :
  forallb id_char id = true ->
  ~ In (ch "/") id /\ ~ In (ch ".") id /\ ~ In (ch "?") id /\ ~ In (ch "#") id
  /\ ~ In (ch "%") id /\ forallb not_space id = true.
Proof.
  intros H. rewrite forallb_forall in H.
  repeat split; try (intros Hin; apply H in Hin; now vm_compute in Hin).
  apply forallb_forall. intros c Hin. apply H, id_char_range in Hin.
  unfold not_space. destruct (is_space c) eqn:Es; [|done].
  apply is_space_range in Es. lia.
Qed.

(** X17: a call of an identifier-scoped route is made for an id of 1 to 99
    letters, digits, hyphens and underscores only, so without a slash, a
    dot, a question mark, a hash, a percent sign or white space.  The id is
    the last segment of the path [/customers/id], the segment before
    [/services] with the sort order [date_desc], or the [customer_id] of a
    call to [/appointments]. *)
Theorem id_call_target (r : route) (req : request) (o : outcall) :
  r = Customer \/ r = Services \/ r = Appointments ->
  In (Requested o) (trace (serve env provider num r req)) ->
  exists id,
    params req !! lit "id" = Some id
    /\ forallb id_char id = true /\ 1 <= length id <= 99
    /\ (~ In (ch "/") id /\ ~ In (ch ".") id /\ ~ In (ch "?") id /\ ~ In (ch "#") id
        /\ ~ In (ch "%") id /\ forallb not_space id = true)
    /\ (r = Customer -> oc_path o = lit "/customers/" ++ id /\ oc_params o = ∅)
    /\ (r = Services ->
        oc_path o = lit "/customers/" ++ id ++ lit "/services"
        /\ oc_params o !! lit "sort" = Some (VStr (lit "date_desc")))
    /\ (r = Appointments ->
        oc_path o = lit "/appointments"
        /\ oc_params o !! lit "customer_id" = Some (VStr id)).
Proof.
  intros Hr Hin.
  assert (Hne : r <> TestCredentials) by (destruct Hr as [->|[->| ->]]; done).
  destruct (credentialed_dec req) as [C|C];
    [|now rewrite serve_rejected in Hin].
  destruct (credentialed_run r req Hne C) as (c & E & Hc). rewrite E in Hin.
  apply in_created_cons in Hin.
  destruct (id_cases (attach req c)) as [(id & Hid & Hv)|Hbad].
  2:{ destruct Hr as [->|[->| ->]]; cbn [handler] in Hin;
        [rewrite customer_bad in Hin|rewrite services_bad in Hin
        |rewrite appointments_bad in Hin]; done. }
  exists id. split; [done|].
  pose proof (proj1 (isValidCustomerId_spec id) Hv) as [Hall Hlen].
  split; [done|]. split; [done|]. split; [now apply id_char_safe|].
  destruct Hr as [->|[->| ->]]; cbn [handler] in Hin.
  - rewrite (customer_good _ c id) in Hin by done.
    apply in_requested_singleton in Hin. subst o. now repeat split.
  - rewrite (services_good _ c id) in Hin by done.
    apply in_requested_singleton in Hin. subst o. now repeat split.
  - rewrite (appointments_good _ c id) in Hin by done.
    apply in_requested_singleton in Hin. subst o.
    split; [done|]. split; [done|]. intros _. cbn [oc_path oc_params].
    split; [done|]. now case_bool_decide.
Qed.

(** X18: the call of the appointments route carries a [status] exactly when
    the request names one other than ["all"]; then it is that status. *)
Theorem appointments_status_filter (req : request) (o : outcall) :
  In (Requested o) (trace (serve env provider num Appointments req)) ->
  (query req !! lit "status" = None \/ query req !! lit "status" = Some (lit "all") ->
   oc_params o !! lit "status" = None)
  /\ (forall st, query req !! lit "status" = Some st -> st <> lit "all" ->
        oc_params o !! lit "status" = Some (VStr st)).
Proof.
  intros Hin.
  destruct (credentialed_dec req) as [C|C];
    [|now rewrite serve_rejected in Hin].
  destruct (credentialed_run Appointments req) as (c & E & Hc); [done|done|].
  rewrite E in Hin. apply in_created_cons in Hin. cbn [handler] in Hin.
  destruct (id_cases (attach req c)) as [(id & Hid & Hv)|Hbad];
    [|now rewrite appointments_bad in Hin].
  rewrite (appointments_good _ c id) in Hin by done.
  apply in_requested_singleton in Hin. subst o. cbn [oc_params query attach].
  split.
  - intros [-> | ->]; cbn [default from_option].
    + now rewrite bool_decide_eq_false_2 by (intros H; now apply H).
    + now rewrite bool_decide_eq_false_2 by (intros H; now apply H).
  - intros st -> Hst. cbn [default from_option].
    rewrite bool_decide_eq_true_2 by done. apply lookup_insert_eq.
Qed.

(** *** The probe of the credential test *)

(** X19: a credential test whose body has a truthy [apiKey] and [apiSecret]
    creates a client bound to these two values and makes one call,
    [GET /customers] with limit 1.  The call goes to the [baseUrl] of the
    body when that is truthy, and to the configured base URL otherwise; when
    the call resolves, the reply is 200 with [success: true] and reports the
    base URL that was used. *)
Theorem test_credentials_probe (req : request) :
  truthy (field (body req) "apiKey") = true ->
  truthy (field (body req) "apiSecret") = true ->
  exists c o,
    trace (serve env provider num TestCredentials req) = [Created c; Requested o]
    /\ Authorization (oc_client o) = Bearer (field (body req) "apiKey")
    /\ X_API_Secret (oc_client o) = field (body req) "apiSecret"
    /\ oc_path o = lit "/customers"
    /\ oc_params o = {[lit "limit" := VNum (Fin 1)]}
    /\ (truthy (field (body req) "baseUrl") = true ->
        baseURL (oc_client o) = field (body req) "baseUrl")
    /\ (truthy (field (body req) "baseUrl") = false ->
        baseURL (oc_client o) = VStr (configured_url env))
    /\ (forall resp, provider o = Resolve resp ->
          sent (serve env provider num TestCredentials req)
          = Some (Reply 200
                    (object [prop "success" (VBool true);
                             prop "message" (VStr (lit "Credentials are valid"));
                             prop "data"
                               (object [prop "connected" (VBool true);
                                        prop "baseUrl" (baseURL (oc_client o))])]))).
Proof.
  intros Hk Hs. cbn [serve].
  rewrite test_credentials_good by (unfold not_; now rewrite Hk, Hs).
  eexists _, _. split; [reflexivity|]. cbn [oc_client oc_path oc_params trace fst].
  rewrite FIELDROUTES_baseURL_configured.
  destruct (truthy (field (body req) "baseUrl")) eqn:Hb; cbn;
    (repeat split; try done); intros resp Hp; unfold sent; cbn [snd];
    rewrite ?FIELDROUTES_baseURL_configured, Hp; reflexivity.
Qed.

(** *** Paging defaults and missing bounds *)

(** X20: on the free-text search, the services and the appointments route,
    a call carries the default limit (10, 20, 10) when the request names
    none; a requested limit that is a number up to the cap is sent as it is,
    a negative one included, and one that is not a number is sent as NaN.
    On the two routes that send an offset, it is 0 when the request names
    none, and a requested offset that is zero or more is sent as it is,
    however large. *)
Theorem paging_passthrough (r : route) (req : request) (o : outcall) (c : Z) :
  r = Search \/ r = Services \/ r = Appointments ->
  In (Requested o) (trace (serve env provider num r req)) ->
  cap r = Some c ->
  (query req !! lit "limit" = None ->
   out_limit o = Some (VNum (Fin (default_limit r))))
  /\ (forall s z, query req !! lit "limit" = Some s -> num s = Fin z -> (z <= c)%Z ->
        out_limit o = Some (VNum (Fin z)))
  /\ (forall s, query req !! lit "limit" = Some s -> num s = NaN ->
        out_limit o = Some (VNum NaN))
  /\ (r <> Appointments ->
      (query req !! lit "offset" = None -> out_offset o = Some (VNum (Fin 0)))
      /\ (forall s z, query req !! lit "offset" = Some s -> num s = Fin z ->
            (0 <= z)%Z -> out_offset o = Some (VNum (Fin z)))).
Proof.
  intros Hr Hin Hcap.
  assert (Hne : r <> TestCredentials) by (destruct Hr as [->|[->| ->]]; done).
  destruct (credentialed_dec req) as [C|C];
    [|now rewrite serve_rejected in Hin].
  destruct (credentialed_run r req Hne C) as (cl & E & Hc). rewrite E in Hin.
  apply in_created_cons in Hin.
  apply (handler_call r _ cl o Hne Hc) in Hin as [_ H].
  unfold number_param in H. cbn [query attach] in H.
  destruct Hr as [->|[->| ->]]; injection Hcap as <-; destruct H as [Hl Ho];
    rewrite Hl, ?Ho; cbn [default_limit];
    (split; [now intros ->|]);
    (split; [intros s z -> -> Hz; cbn; do 3 f_equal; lia|]);
    (split; [now intros s -> ->|]);
    intros Happ; try done;
    (split; [now intros ->|]);
    intros s z -> -> Hz; cbn; do 3 f_equal; lia.
Qed.

End ServerFacts.

(** ** The credential validator on inbound requests *)

Lemma to_lower_not_upper c : is_upper (to_lower c) = false.
Proof.
  unfold to_lower. destruct (is_upper c) eqn:E; [|done].
  unfold is_upper in *. apply andb_true_iff in E as [E1 E2].
  apply N.leb_le in E1, E2. apply andb_false_iff. right. apply N.leb_gt. lia.
Qed.

(** The names of an inbound header object have no upper-case letter. *)
Lemma incoming_headers_lower lines k v :
  incoming_headers lines !! k = Some v -> existsb is_upper k = false.
Proof.
  unfold incoming_headers.
  induction lines as [|[k' v'] lines IH]; simpl; [done|].
  rewrite lookup_insert. case_decide as E; [|exact IH].
  intros _. subst k. clear. induction k' as [|c k' IH]; simpl; [done|].
  now rewrite to_lower_not_upper, IH.
Qed.

Lemma incoming_headers_camel lines (k : string) :
  existsb is_upper (lit k) = true -> incoming_headers lines !! lit k = None.
Proof.
  intros Hk. destruct (incoming_headers lines !! lit k) as [v|] eqn:E; [|done].
  apply incoming_headers_lower in E. congruence.
Qed.

(** C1, where the code fails the claim: the validator reads the properties
    [apiKey] and [apiSecret] of the header object, and the header object of
    an inbound request has lower-case names only.  So the validator replies
    401 with the missing-credentials body to every inbound request, whatever
    header lines it came with, and never attaches a client or runs the
    handler.  At the request with the lines [apiKey: key] and
    [apiSecret: secret] and the email [a@b.co], both headers are present
    (under the names [apikey] and [apisecret]) and the email-search route
    answers 401 without a call. *)
Theorem validateCredentials_misses_sent_headers :
  (forall env lines ps qs b next,
      validateCredentials env (inbound lines ps qs b) next
      = ([], Normal (error_reply 401 "Missing API credentials"
                       "API key and secret are required")))
  /\ (let req := inbound credential_lines {[lit "email" := lit "a@b.co"]} ∅ ∅ in
      headers req = <[lit "apikey" := lit "key"]> {[lit "apisecret" := lit "secret"]}
      /\ serve ∅ (always (Resolve (Response 200 (VObj ∅)))) decimal SearchEmail req
         = ([], Normal (error_reply 401 "Missing API credentials"
                          "API key and secret are required"))).
Proof.
  split; [|split; reflexivity].
  intros env lines ps qs b next. apply validateCredentials_reject.
  intros (k & s & Hk & _). cbn [headers inbound] in Hk.
  now rewrite incoming_headers_camel in Hk.
Qed.

(** ** What a valid email looks like *)

Lemma count_at_run s :
  run not_space_nor_at s -> count_occ N.eq_dec s (ch "@") = 0.
Proof.
  intros [_ H]. apply count_occ_not_In. intros Hin.
  rewrite forallb_forall in H. apply H in Hin. now vm_compute in Hin.
Qed.

Lemma not_space_run s : run not_space_nor_at s -> forallb not_space s = true.
Proof.
  intros [_ H]. rewrite forallb_forall in *. intros c Hin. apply H in Hin.
  unfold not_space_nor_at in Hin. now apply andb_true_iff in Hin as [? _].
Qed.

(** X21: a string that the email validator accepts has exactly one '@', no
    white space, and at least 5 characters. *)
Theorem valid_email_facts (s : jstr) :
  isValidEmail s = true ->
  count_occ N.eq_dec s (ch "@") = 1
  /\ forallb not_space s = true
  /\ 5 <= length s.
Proof.
  intros H. apply isValidEmail_shape in H as (a & b & c & -> & Ha & Hb & Hc).
  split; [|split].
  - rewrite !count_occ_app, (count_at_run a), (count_at_run b), (count_at_run c)
      by done. reflexivity.
  - rewrite !forallb_app, (not_space_run a), (not_space_run b), (not_space_run c)
      by done. reflexivity.
  - destruct Ha as [Ha _], Hb as [Hb _], Hc as [Hc _].
    rewrite !length_app. simpl.
    destruct a, b, c; simpl; try done; lia.
Qed.


(** On such an object a property that is present with the empty string
    counts as missing. *)
Lemma validateCredentials_empty_header :
  let req := with_headers (<[lit "apiKey" := []]> {[lit "apiSecret" := lit "secret"]}) in
  headers req !! lit "apiKey" = Some []
  /\ headers req !! lit "apiSecret" = Some (lit "secret")
  /\ validateCredentials ∅ req next_true
     = ([], Normal (error_reply 401 "Missing API credentials"
                      "API key and secret are required"))
  /\ sent (next_true req) = Some (Reply 200 (VBool true)).
Proof. vm_compute. auto. Qed.

Lemma validateCredentials_gate_witness :
  validateCredentials ∅ (with_headers ∅) next_true
  = ([], Normal (error_reply 401 "Missing API credentials"
                   "API key and secret are required"))
  /\ exists c,
       Authorization c = Bearer (VStr (lit "key")) /\ X_API_Secret c = VStr (lit "secret")
       /\ fieldRoutesClient (attach (with_headers credentials) c) = Some c
       /\ validateCredentials ∅ (with_headers credentials) next_true
          = (Created c :: trace (next_true (attach (with_headers credentials) c)),
             snd (next_true (attach (with_headers credentials) c))).
Proof.
  split.
  - apply (proj1 (validateCredentials_gate ∅ (with_headers ∅) next_true)).
    left. reflexivity.
  - apply (proj2 (validateCredentials_gate ∅ (with_headers credentials) next_true)
             (lit "key") (lit "secret")).
    + reflexivity.
    + reflexivity.
    + vm_compute. discriminate.
    + vm_compute. discriminate.
Defined.

(** C2 as stated fails.  The provider reports the message field [""]: it is
    present, and the reply carries the error's own message instead.  The
    provider status is 0: it is present, and the reply has status 500. *)
Lemma handleApiError_falsy_fields :
  let e1 := http_error 400 (object [prop "message" (VStr [])]) in
  let e2 := http_error 0 VNull in
  (provider_message e1 = VStr []
   /\ exists rep, handleApiError ∅ e1 "Failed to fetch customer" = ([], Normal rep)
        /\ json_field (payload rep) "message" = Some (VStr (lit "Request failed")))
  /\ (status <$> response e2 = Some 0%Z
      /\ exists rep, handleApiError ∅ e2 "Failed to fetch customer" = ([], Normal rep)
           /\ code rep = 500%Z).
Proof.
  split; (split; [reflexivity|]); eexists; (split; [reflexivity|]); reflexivity.
Qed.

Lemma handleApiError_normalises_witness :
  exists rep,
    handleApiError ∅ (http_error 404 (object [prop "message" (VStr (lit "gone"))]))
      "Failed to fetch customer" = ([], Normal rep)
    /\ code rep = 404%Z
    /\ json_field (payload rep) "message" = Some (VStr (lit "gone")).
Proof.
  destruct (handleApiError_normalises ∅
              (http_error 404 (object [prop "message" (VStr (lit "gone"))]))
              "Failed to fetch customer"%string)
    as (rep & E & Hs & _ & _ & Hm & _).
  exists rep. split; [exact E|]. split.
  - apply (Hs (Response 404 (object [prop "message" (VStr (lit "gone"))]))).
    + reflexivity.
    + vm_compute. discriminate.
  - apply Hm. reflexivity.
Defined.

Lemma not_found_reply_witness :
  sent (serve ∅ (always (Reject (http_error 404 VNull))) decimal Services
          (sample_request "id" "AB-12_x" "limit" "500"))
  = Some (error_reply 404 "Customer not found" "No customer found with the provided ID").
Proof.
  apply (not_found_reply ∅ (always (Reject (http_error 404 VNull))) decimal Services
           (sample_request "id" "AB-12_x" "limit" "500")).
  - right. reflexivity.
  - eexists _, _, _. split; [|split; [reflexivity|split; reflexivity]].
    vm_compute. right. left. reflexivity.
Defined.

Lemma invalid_credentials_reply_witness :
  let req := Request ∅ ∅ ∅ (<[lit "apiKey" := VStr (lit "key")]>
                              {[lit "apiSecret" := VStr (lit "secret")]}) None in
  sent (serve ∅ (always (Reject (http_error 403 VNull))) decimal TestCredentials req)
  = Some (error_reply 401 "Invalid credentials" "The provided API credentials are invalid").
Proof.
  intros req.
  apply (invalid_credentials_reply ∅ (always (Reject (http_error 403 VNull))) decimal req).
  right. eexists _, _, _. split; [|split; [reflexivity|split; reflexivity]].
  vm_compute. right. left. reflexivity.
Defined.

Lemma test_credentials_missing_witness :
  let req := Request ∅ ∅ ∅ {[lit "apiKey" := VStr (lit "key")]} None in
  serve ∅ (always (Reject (http_error 403 VNull))) decimal TestCredentials req
  = ([], Normal (error_reply 400 "Missing credentials" "API key and secret are required")).
Proof.
  intros req.
  apply (test_credentials_missing ∅ (always (Reject (http_error 403 VNull))) decimal req).
  right. reflexivity.
Defined.

Lemma credentialed_sample pk pv qk qv : credentialed (sample_request pk pv qk qv).
Proof. exists (lit "key"), (lit "secret"). now vm_compute. Qed.


(** C5 as stated fails.  ["a@b.c@d"] is of the pattern the claim words, whose
    last run may hold an '@', and the validator refuses it.  And a request
    without credentials whose email is not of the pattern is answered 401,
    not 400. *)
Lemma email_claim_fails :
  (spec_email_pattern (lit "a@b.c@d") /\ isValidEmail (lit "a@b.c@d") = false)
  /\ (isValidEmail (lit "nobody") = false
      /\ sent (serve ∅ (always (Resolve (Response 200 VNull))) decimal SearchEmail
                 (anonymous_request "email" "nobody"))
         = Some (error_reply 401 "Missing API credentials"
                   "API key and secret are required")).
Proof.
  split; [split; [|reflexivity] | split; reflexivity].
  exists (lit "a"), (lit "b"), (lit "c@d"). unfold run.
  repeat split; solve [reflexivity | discriminate].
Qed.

Lemma email_search_validation_witness :
  let req := sample_request "email" "a b@c.d" "x" "y" in
  no_request (serve ∅ (always (Resolve (Response 200 VNull))) decimal SearchEmail req)
  /\ sent (serve ∅ (always (Resolve (Response 200 VNull))) decimal SearchEmail req)
     = Some (error_reply 400 "Invalid email address" "Please provide a valid email address").
Proof.
  intros req.
  destruct (email_search_validation ∅ (always (Resolve (Response 200 VNull))) decimal req)
    as (_ & _ & H).
  destruct H as [Hno Hsent].
  - intros e He Hs. vm_compute in He. injection He as <-.
    apply isValidEmail_shape in Hs. vm_compute in Hs. discriminate.
  - split; [exact Hno|]. apply Hsent. apply credentialed_sample.
Defined.

(** C6 as stated fails: a request without credentials whose id has a
    character outside the class is answered 401, not 400. *)
Lemma customer_id_claim_fails :
  isValidCustomerId (lit "12/3") = false
  /\ sent (serve ∅ (always (Resolve (Response 200 VNull))) decimal Customer
             (anonymous_request "id" "12/3"))
     = Some (error_reply 401 "Missing API credentials" "API key and secret are required").
Proof. split; reflexivity. Qed.

Lemma customer_id_validation_witness :
  let req := sample_request "id" "12/3" "x" "y" in
  no_request (serve ∅ (always (Resolve (Response 200 VNull))) decimal Appointments req)
  /\ sent (serve ∅ (always (Resolve (Response 200 VNull))) decimal Appointments req)
     = Some (error_reply 400 "Invalid customer ID" "Please provide a valid customer ID").
Proof.
  intros req.
  destruct (customer_id_validation ∅ (always (Resolve (Response 200 VNull))) decimal
              Appointments req) as [_ H].
  destruct H as [Hno Hsent].
  - right. right. reflexivity.
  - intros id Hid. vm_compute in Hid. injection Hid as <-.
    left. exists (ch "/"). split; [right; right; left|]; reflexivity.
  - split; [exact Hno|]. apply Hsent. apply credentialed_sample.
Defined.

(** C7 as stated fails: the provider answers [{ total: 5 }], without
    [customers], and the reply has [total: 5], not 0. *)
Lemma search_claim_fails :
  let m : gmap jstr jsval := {[lit "total" := VNum (Fin 5)]} in
  m !! lit "customers" = None
  /\ exists rep,
       sent (serve ∅ (always (Resolve (Response 200 (VObj m)))) decimal SearchEmail
               (sample_request "email" "a@b.co" "x" "y")) = Some rep
       /\ json_field (payload rep) "data" = Some (VArr [])
       /\ json_field (payload rep) "total" = Some (VNum (Fin 5)).
Proof.
  split; [reflexivity|]. eexists. split; [reflexivity|]. split; reflexivity.
Qed.

Lemma search_envelope_witness :
  let m : gmap jstr jsval :=
    <[lit "customers" := VArr [VStr (lit "Ann")]]> {[lit "total" := VNum (Fin 3)]} in
  exists rep,
    sent (serve ∅ (always (Resolve (Response 200 (VObj m)))) decimal SearchPhone
            (sample_request "phone" "(555) 123-4567" "x" "y")) = Some rep
    /\ json_field (payload rep) "data" = Some (VArr [VStr (lit "Ann")])
    /\ json_field (payload rep) "total" = Some (VNum (Fin 3)).
Proof.
  intros m.
  destruct (search_envelope ∅ (always (Resolve (Response 200 (VObj m)))) decimal
              SearchPhone (sample_request "phone" "(555) 123-4567" "x" "y") m)
    as (rep & Hsent & _ & _ & Hlist & _).
  - right. left. reflexivity.
  - eexists _, _. split; [|split; reflexivity].
    vm_compute. right. left. reflexivity.
  - exists rep. split; [exact Hsent|].
    apply (Hlist [VStr (lit "Ann")] 3%Z); reflexivity.
Defined.

(** ** Instances of the route guarantees *)

Lemma call_carries_header_credentials_witness :
  exists k s,
    headers sample_search !! lit "apiKey" = Some k
    /\ headers sample_search !! lit "apiSecret" = Some s
    /\ k <> [] /\ s <> []
    /\ oc_client sample_search_call
       = Client (VStr (configured_url ∅)) 10000 (Bearer (VStr k)) (VStr s)
           (lit "application/json").
Proof.
  apply (call_carries_header_credentials ∅ (always (Resolve (Response 200 VNull)))
           decimal Search sample_search sample_search_call).
  - discriminate.
  - vm_compute. right. left. reflexivity.
Defined.

Lemma success_needs_resolved_call_witness :
  let provider := always (Resolve (Response 200 (VObj sample_body))) in
  let req := sample_request "id" "AB-12_x" "x" "y" in
  code (Reply 200 (object [prop "success" (VBool true);
                           prop "data" (VObj sample_body)])) = 200%Z
  /\ exists o resp,
       In (Requested o) (trace (serve ∅ provider decimal Customer req))
       /\ provider o = Resolve resp.
Proof.
  intros provider req.
  apply (success_needs_resolved_call ∅ provider decimal Customer req
           (Reply 200 (object [prop "success" (VBool true);
                               prop "data" (VObj sample_body)]))).
  - reflexivity.
  - reflexivity.
Defined.

Lemma details_only_in_development_witness :
  let rep := Reply 502 (object [prop "error" (VStr (lit "API Error"));
                                prop "message" (VStr (lit "Request failed"));
                                prop "details" VUndefined]) in
  json_field (payload rep) "details" = None.
Proof.
  intros rep.
  apply (details_only_in_development ∅
           (always (Reject (http_error 502 (VStr (lit "upstream is down")))))
           decimal Customer (sample_request "id" "AB-12_x" "x" "y") rep).
  - reflexivity.
  - vm_compute. discriminate.
Defined.

Lemma provider_status_mirrored_witness :
  let provider := always (Reject (http_error 404 VNull)) in
  let req := sample_request "id" "AB-12_x" "x" "y" in
  exists rep,
    sent (serve ∅ provider decimal Appointments req) = Some rep
    /\ code rep = 404%Z
    /\ json_field (payload rep) "error" = Some (VStr (lit "API Error")).
Proof.
  intros provider req.
  apply (provider_status_mirrored ∅ provider decimal Appointments req 404).
  - eexists _, _, _. split; [|split; [reflexivity|split; reflexivity]].
    vm_compute. right. left. reflexivity.
  - discriminate.
  - simpl. tauto.
Defined.

Lemma network_failure_reply_witness :
  let provider := always (Reject timeout_error) in
  let req := sample_request "id" "AB-12_x" "x" "y" in
  exists rep,
    sent (serve ∅ provider decimal Services req) = Some rep
    /\ code rep = 500%Z
    /\ json_field (payload rep) "error" = Some (VStr (lit "API Error"))
    /\ (message timeout_error <> [] ->
        json_field (payload rep) "message" = Some (VStr (message timeout_error)))
    /\ (message timeout_error = [] ->
        json_field (payload rep) "message"
        = Some (VStr (lit (default_message Services)))).
Proof.
  intros provider req.
  apply (network_failure_reply ∅ provider decimal Services req timeout_error).
  - eexists. split; [|reflexivity]. vm_compute. right. left. reflexivity.
  - reflexivity.
Defined.

Lemma null_body_reply_witness :
  let provider := always (Resolve (Response 200 VNull)) in
  exists rep,
    sent (serve ∅ provider decimal Search sample_search) = Some rep
    /\ code rep = 500%Z
    /\ json_field (payload rep) "error" = Some (VStr (lit "API Error")).
Proof.
  intros provider.
  apply (null_body_reply ∅ provider decimal Search sample_search).
  - discriminate.
  - discriminate.
  - eexists _, _. split; [|split; reflexivity].
    vm_compute. right. left. reflexivity.
Defined.

Lemma customer_passthrough_witness :
  let provider := always (Resolve (Response 200 VNull)) in
  let req := sample_request "id" "AB-12_x" "x" "y" in
  sent (serve ∅ provider decimal Customer req)
  = Some (Reply 200 (object [prop "success" (VBool true); prop "data" VNull])).
Proof.
  intros provider req.
  apply (customer_passthrough ∅ provider decimal req VNull).
  eexists _, _. split; [|split; reflexivity].
  vm_compute. right. left. reflexivity.
Defined.

Lemma history_envelope_witness :
  let provider := always (Resolve (Response 200 (VObj sample_body))) in
  let req := sample_request "id" "AB-12_x" "x" "y" in
  exists rep,
    sent (serve ∅ provider decimal Appointments req) = Some rep
    /\ json_field (payload rep) "data" = Some (VArr [])
    /\ json_field (payload rep) "total" = Some (VNum (Fin 3)).
Proof.
  intros provider req.
  destruct (history_envelope ∅ provider decimal Appointments req sample_body)
    as (rep & Hsent & _ & _ & Hnone & Htotal & _).
  - right. reflexivity.
  - eexists _, _. split; [|split; reflexivity].
    vm_compute. right. left. reflexivity.
  - exists rep. split; [exact Hsent|]. split.
    + apply Hnone. right. reflexivity.
    + apply (Htotal 3%Z). reflexivity.
Defined.

Lemma phone_call_shape_witness :
  let req := sample_request "phone" "n/a" "x" "y" in
  let o := Outcall sample_client (lit "/customers")
             (<[lit "phone" := VStr []]> {[lit "limit" := VNum (Fin 10)]}) in
  exists p,
    params req !! lit "phone" = Some p /\ p <> []
    /\ oc_path o = lit "/customers"
    /\ oc_params o
       = <[lit "phone" := VStr (List.filter is_digit p)]> {[lit "limit" := VNum (Fin 10)]}.
Proof.
  intros req o.
  apply (phone_call_shape ∅ (always (Resolve (Response 200 VNull))) decimal req o).
  vm_compute. right. left. reflexivity.
Defined.

Lemma email_call_shape_witness :
  let req := sample_request "email" "Ann@Example.com" "x" "y" in
  let o := Outcall sample_client (lit "/customers")
             (<[lit "email" := VStr (lit "Ann@Example.com")]>
                {[lit "limit" := VNum (Fin 10)]}) in
  exists e,
    params req !! lit "email" = Some e /\ isValidEmail e = true
    /\ oc_path o = lit "/customers"
    /\ oc_params o = <[lit "email" := VStr e]> {[lit "limit" := VNum (Fin 10)]}.
Proof.
  intros req o.
  apply (email_call_shape ∅ (always (Resolve (Response 200 VNull))) decimal req o).
  vm_compute. right. left. reflexivity.
Defined.

Lemma search_call_shape_witness :
  let req := sample_request "x" "y" "q" "  ann lee " in
  let o := Outcall sample_client (lit "/customers/search")
             (<[lit "q" := VStr (lit "ann lee")]>
                (<[lit "limit" := VNum (Fin 10)]> {[lit "offset" := VNum (Fin 0)]})) in
  exists q,
    query req !! lit "q" = Some q /\ 2 <= length (trim q)
    /\ oc_path o = lit "/customers/search"
    /\ oc_params o !! lit "q" = Some (VStr (trim q))
    /\ (forall x t, trim q = x :: t -> is_space x = false)
    /\ (forall x t, trim q = t ++ [x] -> is_space x = false).
Proof.
  intros req o.
  apply (search_call_shape ∅ (always (Resolve (Response 200 VNull))) decimal req o).
  vm_compute. right. left. reflexivity.
Defined.

Lemma phone_required_witness :
  let req := sample_request "telephone" "5551234567" "x" "y" in
  no_request (serve ∅ (always (Resolve (Response 200 VNull))) decimal SearchPhone req)
  /\ sent (serve ∅ (always (Resolve (Response 200 VNull))) decimal SearchPhone req)
     = Some (error_reply 400 "Phone number required" "Please provide a phone number").
Proof.
  intros req.
  destruct (phone_required ∅ (always (Resolve (Response 200 VNull))) decimal req)
    as [Hno Hsent].
  - intros p Hp. vm_compute in Hp. discriminate.
  - split; [exact Hno|]. apply Hsent. apply credentialed_sample.
Defined.

Lemma search_query_refused_witness :
  let req := sample_request "x" "y" "q" "  a  " in
  no_request (serve ∅ (always (Resolve (Response 200 VNull))) decimal Search req)
  /\ sent (serve ∅ (always (Resolve (Response 200 VNull))) decimal Search req)
     = Some (error_reply 400 "Invalid search query"
               "Search query must be at least 2 characters long").
Proof.
  intros req.
  destruct (search_query_refused ∅ (always (Resolve (Response 200 VNull))) decimal req)
    as [Hno Hsent].
  - intros q Hq. vm_compute in Hq. injection Hq as <-. vm_compute. lia.
  - split; [exact Hno|]. apply Hsent. apply credentialed_sample.
Defined.

Lemma search_echoes_query_witness :
  let provider := always (Resolve (Response 200 (VObj sample_body))) in
  exists q rep,
    query sample_search !! lit "q" = Some q
    /\ sent (serve ∅ provider decimal Search sample_search) = Some rep
    /\ json_field (payload rep) "query" = Some (VStr (trim q)).
Proof.
  intros provider.
  apply (search_echoes_query ∅ provider decimal sample_search sample_body).
  eexists _, _. split; [|split; reflexivity].
  vm_compute. right. left. reflexivity.
Defined.

Lemma id_call_target_witness :
  let req := sample_request "id" "AB-12_x" "limit" "500" in
  let o := Outcall sample_client (lit "/customers/AB-12_x/services")
             (<[lit "limit" := VNum (Fin 100)]>
                (<[lit "offset" := VNum (Fin 0)]>
                   {[lit "sort" := VStr (lit "date_desc")]})) in
  exists id,
    params req !! lit "id" = Some id
    /\ oc_path o = lit "/customers/" ++ id ++ lit "/services".
Proof.
  intros req o.
  destruct (id_call_target ∅ (always (Resolve (Response 200 VNull))) decimal Services
              req o (or_intror (or_introl eq_refl)))
    as (id & Hid & _ & _ & _ & _ & Hs & _).
  - vm_compute. right. left. reflexivity.
  - exists id. split; [exact Hid|]. apply Hs. reflexivity.
Defined.

Lemma appointments_status_filter_witness :
  let req := sample_request "id" "AB-12_x" "status" "scheduled" in
  let o := Outcall sample_client (lit "/appointments")
             (<[lit "status" := VStr (lit "scheduled")]>
                (<[lit "customer_id" := VStr (lit "AB-12_x")]>
                   {[lit "limit" := VNum (Fin 10)]})) in
  oc_params o !! lit "status" = Some (VStr (lit "scheduled")).
Proof.
  intros req o.
  destruct (appointments_status_filter ∅ (always (Resolve (Response 200 VNull)))
              decimal req o) as [_ Hst].
  - vm_compute. right. left. reflexivity.
  - apply Hst; [reflexivity|]. vm_compute. discriminate.
Defined.

Lemma test_credentials_probe_witness :
  exists c o,
    trace (serve ∅ (always (Resolve (Response 200 VNull))) decimal TestCredentials
             sample_test) = [Created c; Requested o]
    /\ baseURL (oc_client o) = VStr (lit "https://example.test")
    /\ baseURL c = VStr (lit "https://api.fieldroutes.com/v1").
Proof.
  destruct (test_credentials_probe ∅ (always (Resolve (Response 200 VNull))) decimal
              sample_test) as (c & o & Ht & _ & _ & _ & _ & Hb & _).
  - reflexivity.
  - reflexivity.
  - exists c, o. split; [exact Ht|]. split.
    + rewrite Hb; reflexivity.
    + vm_compute in Ht. now injection Ht as <- _.
Defined.

Lemma paging_passthrough_witness :
  let req := sample_request "id" "AB-12_x" "limit" "7" in
  let o := Outcall sample_client (lit "/customers/AB-12_x/services")
             (<[lit "limit" := VNum (Fin 7)]>
                (<[lit "offset" := VNum (Fin 0)]>
                   {[lit "sort" := VStr (lit "date_desc")]})) in
  out_limit o = Some (VNum (Fin 7)) /\ out_offset o = Some (VNum (Fin 0)).
Proof.
  intros req o.
  destruct (paging_passthrough ∅ (always (Resolve (Response 200 VNull))) decimal
              Services req o 100 (or_intror (or_introl eq_refl)))
    as (_ & Hl & _ & Ho).
  - vm_compute. right. left. reflexivity.
  - reflexivity.
  - split.
    + apply (Hl (lit "7") 7%Z); [reflexivity|reflexivity|lia].
    + apply Ho; [discriminate|reflexivity].
Defined.

Lemma valid_email_facts_witness :
  count_occ N.eq_dec (lit "ann@example.com") (ch "@") = 1
  /\ forallb not_space (lit "ann@example.com") = true
  /\ 5 <= length (lit "ann@example.com").
Proof. apply (valid_email_facts (lit "ann@example.com")). reflexivity. Defined.

(** ** Phone normalisation *)

(** C9: phone normalisation keeps the digits of its input, in order, and
    nothing else; normalising twice is normalising once; a string of digits
    is left unchanged; and ["(555) 123-4567"] becomes ["5551234567"]. *)
Theorem cleanPhone_normalises :
  (forall s, cleanPhone s = List.filter is_digit s)
  /\ (forall s, cleanPhone (cleanPhone s) = cleanPhone s)
  /\ (forall s, forallb is_digit s = true -> cleanPhone s = s)
  /\ cleanPhone (lit "(555) 123-4567") = lit "5551234567".
Proof.
  split; [apply cleanPhone_filter|]. split; [|split; [|reflexivity]].
  - intros s. rewrite !cleanPhone_filter. apply filter_all, forallb_filter.
  - intros s H. rewrite cleanPhone_filter. now apply filter_all.
Qed.

Lemma cleanPhone_normalises_witness :
  cleanPhone (lit "5551234567") = lit "5551234567".
Proof.
  apply (proj1 (proj2 (proj2 cleanPhone_normalises)) (lit "5551234567")).
  reflexivity.
Defined.

(** ** Worked examples *)

Example isValidEmail_accepts : isValidEmail (lit "ann@example.com") = true.
Proof. reflexivity. Qed.

Example isValidEmail_refuses_space : isValidEmail (lit "a b@c.d") = false.
Proof. reflexivity. Qed.

Example isValidCustomerId_accepts : isValidCustomerId (lit "AB-12_x") = true.
Proof. reflexivity. Qed.

Example isValidCustomerId_refuses_long :
  isValidCustomerId (repeat (ch "a") 100) = false.
Proof. reflexivity. Qed.

(** A search that asks for 500 results sends the limit 50. *)
Example search_limit_500 :
  trace (serve ∅ (always (Resolve (Response 200 VNull))) decimal Search sample_search)
  = [Created sample_client; Requested sample_search_call].
Proof. reflexivity. Qed.

(** A response body [null] makes the handler throw; the normaliser answers 500. *)
Example search_null_body :
  code <$> sent (serve ∅ (always (Resolve (Response 200 VNull))) decimal Search
                   sample_search)
  = Some 500%Z.
Proof. reflexivity. Qed.
